(** * parser-service/routes.js: the Apply and Build-Reconciliation handlers

    A shallow embedding of [applyRecommendations] and [ci].  Each handler is
    a program over the calls it makes to its collaborators (recommender,
    terraform, sourcecontrol, github, db), the clock and the HTTP response
    object; running a program against an arbitrary world yields the ordered
    trace of calls, the response the client receives and how the handler's
    promise settles.  What JavaScript itself supplies and the file does not
    hold, the decoding of the payload and the Unicode case table, is a
    parameter of the handlers. *)

From Stdlib Require Import String Ascii List Bool Arith Lia DecimalString.
Import ListNotations.
Local Open Scope list_scope.
Local Open Scope string_scope.
Set Warnings "-register-all".

(** ** JavaScript values the handlers touch *)

Module JS.

(** An [Error] object; [toString] is [Error.prototype.toString]. *)
Record Error : Type := mkError { name : string; message : string }.

Definition toString (e : Error) : string :=
  if String.eqb (name e) "" then message e
  else if String.eqb (message e) "" then name e
  else name e ++ ": " ++ message e.

(** A settled promise (or the completion of a call that may throw). *)
Inductive result (A : Type) : Type :=
| Ok (a : A)
| Err (e : Error).
Arguments Ok {A} a.
Arguments Err {A} e.

(** What [JSON.parse] can return.  A number is kept as the text that
    Number-to-String conversion gives for it (zero, of either sign, is "0");
    an object as the list of its own properties. *)
Inductive Json : Type :=
| JNull
| JBool (b : bool)
| JNum (repr : string)
| JStr (s : string)
| JArr (items : list Json)
| JObj (props : list (string * Json)).

(** A value read from a parsed payload: [None] is [undefined]. *)
Definition Value : Type := option Json.

Fixpoint lookup (k : string) (props : list (string * Json)) : Value :=
  match props with
  | [] => None
  | (k', v) :: rest => if String.eqb k k' then Some v else lookup k rest
  end.

(** [v.k] for a property name [k] that no built-in prototype defines (the
    handlers read [status], [substitutions], [COMMIT_SHA], [REPO_NAME]):
    a TypeError on [undefined] and [null], the own property of an object,
    [undefined] on every other value. *)
Definition cannot_read (what k : string) : Error :=
  mkError "TypeError"
    ("Cannot read properties of " ++ what ++ " (reading '" ++ k ++ "')").

Definition member (v : Value) (k : string) : result Value :=
  match v with
  | None => Err (cannot_read "undefined" k)
  | Some JNull => Err (cannot_read "null" k)
  | Some (JObj props) => Ok (lookup k props)
  | Some _ => Ok None
  end.

(** ToBoolean. *)
Definition truthy (v : Value) : bool :=
  match v with
  | None => false
  | Some JNull => false
  | Some (JBool b) => b
  | Some (JNum repr) => negb (String.eqb repr "0")
  | Some (JStr s) => negb (String.eqb s "")
  | Some (JArr _) => true
  | Some (JObj _) => true
  end.

(** Whether an object has an own property [k]. *)
Fixpoint has_own (k : string) (props : list (string * Json)) : bool :=
  match props with
  | [] => false
  | (k', _) :: rest => String.eqb k k' || has_own k rest
  end.

Definition cannot_convert : Error :=
  mkError "TypeError" "Cannot convert object to primitive value".

(** [Array.prototype.join] with the comma, given the conversion [f] of an
    item: [null] items give the empty string, and the items are converted
    from left to right. *)
Definition joinItem (f : Json -> result string) (x : Json) : result string :=
  match x with
  | JNull => Ok ""
  | _ => f x
  end.

Definition join (f : Json -> result string) : list Json -> result string :=
  fix join (l : list Json) : result string :=
    match l with
    | [] => Ok ""
    | [x] => joinItem f x
    | x :: rest =>
        match joinItem f x with
        | Err e => Err e
        | Ok first =>
            match join rest with
            | Err e => Err e
            | Ok others => Ok (first ++ "," ++ others)
            end
        end
    end.

(** ToString.  An array is joined.  An object converts through its
    [toString] property: the inherited one gives "[object Object]"; an
    own property of that name, which in a parsed payload is never a
    function, hides it, and the conversion throws a TypeError. *)
Fixpoint jsonToString (j : Json) : result string :=
  match j with
  | JNull => Ok "null"
  | JBool true => Ok "true"
  | JBool false => Ok "false"
  | JNum repr => Ok repr
  | JStr s => Ok s
  | JArr items => join jsonToString items
  | JObj props =>
      if has_own "toString" props then Err cannot_convert
      else Ok "[object Object]"
  end.

Definition valueToString (v : Value) : result string :=
  match v with
  | None => Ok "undefined"
  | Some j => jsonToString j
  end.

(** [v == 'SUCCESS']: [undefined] and [null] equal no string; a boolean or
    a number is compared as a number with ToNumber('SUCCESS'), which is
    NaN; a string is compared as it is; an array or object is converted to
    a primitive first, which is its ToString here (the inherited [valueOf]
    returns the object itself, and an own [valueOf] of a parsed payload is
    not a function), and throws when that throws. *)
Definition eq_SUCCESS (v : Value) : result bool :=
  match v with
  | None => Ok false
  | Some JNull => Ok false
  | Some (JBool _) => Ok false
  | Some (JNum _) => Ok false
  | Some (JStr t) => Ok (String.eqb t "SUCCESS")
  | Some (JArr items) =>
      match jsonToString (JArr items) with
      | Ok t => Ok (String.eqb t "SUCCESS")
      | Err e => Err e
      end
  | Some (JObj props) =>
      match jsonToString (JObj props) with
      | Ok t => Ok (String.eqb t "SUCCESS")
      | Err e => Err e
      end
  end.

(** [String.prototype.toUpperCase].  A string is held as its UTF-8
    bytes.  The conversion works character by character and without
    regard to context: an ASCII letter a-z becomes A-Z and any other ASCII
    character is kept; the characters outside ASCII, whose bytes are all
    128 or more, are converted by the Unicode case mappings, which may
    give ASCII letters (the dotless i becomes I, the sharp s becomes SS).
    Those mappings are a table outside this file: [unicodeUpper] is what
    they make of a maximal run of non-ASCII characters. *)
Definition isAscii (c : ascii) : bool := (nat_of_ascii c <? 128)%nat.

Definition upperAscii (c : ascii) : ascii :=
  let n := nat_of_ascii c in
  if ((97 <=? n) && (n <=? 122))%nat then ascii_of_nat (n - 32) else c.

Definition upperRun (unicodeUpper : string -> string) (run : string)
  : string :=
  match run with
  | EmptyString => EmptyString
  | _ => unicodeUpper run
  end.

(** [run] holds the non-ASCII bytes read since the last ASCII one. *)
Fixpoint upperFrom (unicodeUpper : string -> string) (run s : string)
  : string :=
  match s with
  | EmptyString => upperRun unicodeUpper run
  | String c rest =>
      if isAscii c then
        upperRun unicodeUpper run
        ++ String (upperAscii c) (upperFrom unicodeUpper EmptyString rest)
      else upperFrom unicodeUpper (run ++ String c EmptyString) rest
  end.

Definition toUpperCase (unicodeUpper : string -> string) (s : string)
  : string :=
  upperFrom unicodeUpper EmptyString s.

(** [s.includes(t)]. *)
Fixpoint includes (s t : string) : bool :=
  if String.prefix t s then true
  else match s with
       | EmptyString => false
       | String _ rest => includes rest t
       end.

End JS.

Import JS.

(** ** Collaborator interfaces

    The modules [recommender], [terraform], [sourcecontrol], [github] and
    [db] are required by routes.js and are not part of it; a call to one of
    them is an event answered by the world. *)

(** A recommendation as the recommender and the applier exchange it. *)
Record Recommendation : Type :=
  mkRecommendation { id : string; etag : string }.

(** A recommendation resource as [recommender.getRecommendations] returns
    it; the handler reads [name] and [etag]. *)
Record Resource : Type :=
  mkResource { resource_name : string; resource_etag : string }.

(** The object [sourceControl.commitChanges] resolves to. *)
Record Commit : Type := mkCommit { commit : string; branch : string }.

(** The two functions that [listRecommendationsFn] can be bound to, and the
    two for [applyRecommendationsFn]. *)
Inductive ListFn : Type :=
| listVMResizeRecommendations
| listIAMRecommendations.

Inductive ApplyFn : Type :=
| applyVMResizeRecommendations
| applyIAMRecommendations.

Inductive Call : Type :=
| recommender_list (fn : ListFn) (projectIDs : list string)
| terraform_apply (fn : ApplyFn) (repoName : string)
    (recommendations : list Recommendation)
| cloneRepository (url localName : string)
| commitChanges (commitMessage repoName : string)
| createPullRequest (url branchName title : string)
| createCommit (repoName commitID : string)
    (recommendations : list Recommendation)
| getCommit (repoName : Value) (commitID : string)
| getParentCommits (fullRepoName : string) (commitID : Value)
| getRecommendations (recommendationIDs : list string)
| setRecommendationStatus (recommendations : list Recommendation)
    (action : string).

(** What the promise returned by a call resolves to. *)
Definition Payload (c : Call) : Type :=
  match c with
  | recommender_list _ _ => list Recommendation
  | terraform_apply _ _ _ => list Recommendation
  | cloneRepository _ _ => unit
  | commitChanges _ _ => Commit
  | createPullRequest _ _ _ => unit
  | createCommit _ _ _ => unit
  | getCommit _ _ => list string
  | getParentCommits _ _ => list string
  | getRecommendations _ => list Resource
  | setRecommendationStatus _ _ => unit
  end.

(** The same, in one type, for the trace. *)
Inductive Data : Type :=
| DRecommendations (l : list Recommendation)
| DCommit (c : Commit)
| DStrings (l : list string)
| DResources (l : list Resource)
| DNone.

Definition reify (c : Call) : result (Payload c) -> result Data :=
  match c return result (Payload c) -> result Data with
  | recommender_list _ _ | terraform_apply _ _ _ =>
      fun r => match r with Ok l => Ok (DRecommendations l) | Err e => Err e end
  | commitChanges _ _ =>
      fun r => match r with Ok c => Ok (DCommit c) | Err e => Err e end
  | getCommit _ _ | getParentCommits _ _ =>
      fun r => match r with Ok l => Ok (DStrings l) | Err e => Err e end
  | getRecommendations _ =>
      fun r => match r with Ok l => Ok (DResources l) | Err e => Err e end
  | cloneRepository _ _ | createPullRequest _ _ _ | createCommit _ _ _
  | setRecommendationStatus _ _ =>
      fun r => match r with Ok _ => Ok DNone | Err e => Err e end
  end.

(** ** The response object (Express on Node's http.ServerResponse) *)

Module Express.

(** [statusCode] is the property of that name; [sent] is what has gone to
    the client, once the response has been sent and ended. *)
Record Response : Type :=
  mkResponse { statusCode : nat; sent : option (nat * string) }.

Definition fresh : Response := mkResponse 200 None.

Inductive Op : Type :=
| status (code : nat)             (* res.status(code) *)
| send (body : string)            (* res.send(body) *)
| sendStatus (code : nat)         (* res.sendStatus(code) *)
| end_ (chunk : option string).   (* res.end(chunk) and res.end() *)

Definition headers_sent : Error :=
  mkError "Error [ERR_HTTP_HEADERS_SENT]"
    "Cannot set headers after they are sent to the client".

(** The message registered for a status code, for the codes routes.js
    sends; Express falls back on the code's digits. *)
Definition status_message (code : nat) : string :=
  match code with
  | 200 => "OK"
  | 201 => "Created"
  | 500 => "Internal Server Error"
  | _ => NilEmpty.string_of_uint (Nat.to_uint code)
  end.

(** [send] and [sendStatus] set headers, which throws once the response
    has been sent; [sendStatus] sends the status message as the body and
    ends the response; [end] on an ended response writes nothing. *)
Definition step (op : Op) (res : Response) : result unit * Response :=
  match op with
  | status code => (Ok tt, mkResponse code (sent res))
  | send body =>
      match sent res with
      | Some _ => (Err headers_sent, res)
      | None => (Ok tt, mkResponse (statusCode res) (Some (statusCode res, body)))
      end
  | sendStatus code =>
      match sent res with
      | Some _ => (Err headers_sent, mkResponse code (sent res))
      | None => (Ok tt, mkResponse code (Some (code, status_message code)))
      end
  | end_ chunk =>
      match sent res with
      | Some _ => (Ok tt, res)
      | None =>
          (Ok tt,
           mkResponse (statusCode res)
             (Some (statusCode res,
                    match chunk with Some s => s | None => "" end)))
      end
  end.

End Express.

(** ** Handler programs *)

(** A handler body: it returns, throws, awaits a collaborator call (the
    continuation receives the settled promise), reads the clock through
    [(new Date()).toLocaleString()], acts on the response object, or
    learns which of several rejected promises, [e] or one of [others], was
    rejected first in time. *)
Inductive Prog (A : Type) : Type :=
| Ret (a : A)
| Throw (e : Error)
| Do (c : Call) (k : result (Payload c) -> Prog A)
| Now (k : string -> Prog A)
| Res (op : Express.Op) (k : result unit -> Prog A)
| Earliest (e : Error) (others : list Error) (k : Error -> Prog A).
Arguments Ret {A} a.
Arguments Throw {A} e.
Arguments Do {A} c k.
Arguments Now {A} k.
Arguments Res {A} op k.
Arguments Earliest {A} e others k.

Fixpoint bind {A B : Type} (p : Prog A) (f : A -> Prog B) : Prog B :=
  match p with
  | Ret a => f a
  | Throw e => Throw e
  | Do c k => Do c (fun r => bind (k r) f)
  | Now k => Now (fun ts => bind (k ts) f)
  | Res op k => Res op (fun r => bind (k r) f)
  | Earliest e others k => Earliest e others (fun e' => bind (k e') f)
  end.

Notation "x <- p ;; q" := (bind p (fun x => q))
  (at level 61, p at next level, right associativity).
Notation "p ;; q" := (bind p (fun _ => q))
  (at level 61, right associativity).

(** [try { p } catch (e) { h e }]. *)
Fixpoint try_catch {A : Type} (p : Prog A) (h : Error -> Prog A) : Prog A :=
  match p with
  | Ret a => Ret a
  | Throw e => h e
  | Do c k => Do c (fun r => try_catch (k r) h)
  | Now k => Now (fun ts => try_catch (k ts) h)
  | Res op k => Res op (fun r => try_catch (k r) h)
  | Earliest e others k => Earliest e others (fun e' => try_catch (k e') h)
  end.

(** A value or the exception thrown in its place. *)
Definition settle {A : Type} (r : result A) : Prog A :=
  match r with
  | Ok a => Ret a
  | Err e => Throw e
  end.

(** [await c(...)]. *)
Definition await (c : Call) : Prog (Payload c) := Do c settle.

Definition res (op : Express.Op) : Prog unit := Res op settle.

Definition toLocaleString : Prog string := Now Ret.

(** [commits.map(c => db.getCommit(repoName, c))]: every lookup is
    started, in the order of [commits], and the promises are kept.  The
    world answers each call when it is started. *)
Fixpoint map_getCommit (repoName : Value) (commits : list string)
  : Prog (list (result (list string))) :=
  match commits with
  | [] => Ret []
  | c :: rest =>
      Do (getCommit repoName c) (fun r =>
        rs <- map_getCommit repoName rest ;;
        Ret (r :: rs))
  end.

(** The reasons of the rejected promises of a list, and the values of
    the fulfilled ones, both in the order of the list. *)
Fixpoint rejections {X : Type} (promises : list (result X)) : list Error :=
  match promises with
  | [] => []
  | Ok _ :: rest => rejections rest
  | Err e :: rest => e :: rejections rest
  end.

Fixpoint values {X : Type} (promises : list (result X)) : list X :=
  match promises with
  | [] => []
  | Ok x :: rest => x :: values rest
  | Err _ :: rest => values rest
  end.

(** [await Promise.all(promises)]: the values in order when every promise
    is fulfilled; otherwise it throws the reason of the promise that was
    rejected first in time, whichever of the rejected ones that is. *)
Definition all {X : Type} (promises : list (result X)) : Prog (list X) :=
  match rejections promises with
  | [] => Ret (values promises)
  | e :: others => Earliest e others Throw
  end.

(** ** routes.js *)

Record ApplyRequest : Type :=
  mkApplyRequest {
    params_type : string;            (* req.params.type *)
    body_repo : string;              (* req.body.repo *)
    body_projects : list string      (* req.body.projects *)
  }.

Record CiRequest : Type :=
  mkCiRequest { message_data : string (* req.body.message.data *) }.

Definition not_a_function (f : string) : Error :=
  mkError "TypeError" (f ++ " is not a function").

Section Routes.

(** [process.env.GITHUB_ACCOUNT], [undefined] when the variable is unset. *)
Variable BASE_REPO : option string.

(** [data => JSON.parse(Buffer.from(data, 'base64').toString())]: the
    parsed payload, or the SyntaxError that [JSON.parse] throws. *)
Variable JSON_parse_base64 : string -> result Json.

(** The Unicode upper-casing of a run of non-ASCII characters, as
    [String.prototype.toUpperCase] applies it. *)
Variable unicodeUpper : string -> string.

Definition base_repo_text : string :=
  match BASE_REPO with
  | Some account => account
  | None => "undefined"
  end.

(** [`git@${BASE_REPO}/${repoName}.git`] *)
Definition remote (repoName : string) : string :=
  "git@" ++ base_repo_text ++ "/" ++ repoName ++ ".git".

(** [applyRecommendations], lines 23-91.  The [switch] binds the two
    function variables; its [default] branch sends a response and, having
    no [return], leaves them unbound and falls out of the [switch].  The
    early [return] after 'Nothing to apply' is the first branch of the
    conditional on the listing.  Logging is left out. *)
Definition applyRecommendations (req : ApplyRequest) : Prog unit :=
  try_catch
    (let repoName := body_repo req in
     let projectIDs := body_projects req in
     let type := toUpperCase unicodeUpper (params_type req) in
     fns <-
       (if String.eqb type "VM" then
          Ret (Some listVMResizeRecommendations,
               Some applyVMResizeRecommendations)
        else if String.eqb type "IAM" then
          Ret (Some listIAMRecommendations,
               Some applyIAMRecommendations)
        else
          res (Express.status 500) ;;
          res (Express.send "Unknown operation") ;;
          Ret (None, None)) ;;
     let listRecommendationsFn : option ListFn := fst fns in
     let applyRecommendationsFn : option ApplyFn := snd fns in
     recommendations <-
       match listRecommendationsFn return Prog (list Recommendation) with
       | Some fn => await (recommender_list fn projectIDs)
       | None => Throw (not_a_function "listRecommendationsFn")
       end ;;
     if Nat.eqb (length recommendations) 0 then
       res (Express.end_ (Some "Nothing to apply"))
     else
       await (cloneRepository (remote repoName) repoName) ;;
       recommendationsToClaim <-
         match applyRecommendationsFn return Prog (list Recommendation) with
         | Some fn => await (terraform_apply fn repoName recommendations)
         | None => Throw (not_a_function "applyRecommendationsFn")
         end ;;
       (if Nat.ltb 0 (length recommendationsToClaim) then
          commitMessage <-
            (if String.eqb type "VM" then
               now <- toLocaleString ;;
               Ret ("Recommended VM Rightsizing as on " ++ now)
             else
               now <- toLocaleString ;;
               Ret ("Recommended IAM Updates as on " ++ now)) ;;
          commit' <- await (commitChanges commitMessage repoName) ;;
          await (createPullRequest (remote repoName) (branch commit')
                   commitMessage) ;;
          await (createCommit repoName (commit commit')
                   recommendationsToClaim) ;;
          await (setRecommendationStatus recommendationsToClaim
                   "markClaimed")
        else Ret tt) ;;
       res (Express.sendStatus 201) ;;
       res (Express.end_ None))
    (fun e =>
       res (Express.sendStatus 500) ;;
       res (Express.end_ (Some (toString e)))).

(** [ci], lines 101-156.  The payload is decoded before the [try] is
    entered.  In [a && b] the second operand is read only when the first
    holds.  The template literal of line 109 converts [repoName] to a
    string, which may throw.  Logging is left out. *)
Definition ci (req : CiRequest) : Prog unit :=
  let data := message_data req in
  payload <- settle (JSON_parse_base64 data) ;;
  try_catch
    (status <- settle (member (Some payload) "status") ;;
     actionable <-
       (success <- settle (eq_SUCCESS status) ;;
        if success : bool then
          substitutions <- settle (member (Some payload) "substitutions") ;;
          Ret (truthy substitutions)
        else Ret false) ;;
     if actionable : bool then
       substitutions <- settle (member (Some payload) "substitutions") ;;
       commitID <- settle (member substitutions "COMMIT_SHA") ;;
       repoName <- settle (member substitutions "REPO_NAME") ;;
       repoNameText <- settle (valueToString repoName) ;;
       let fullRepoName := base_repo_text ++ "/" ++ repoNameText in
       parentCommits <- await (getParentCommits fullRepoName commitID) ;;
       dbLookUpPromises <- map_getCommit repoName parentCommits ;;
       dbLookUpPromisesResult <- all dbLookUpPromises ;;
       let recommendationIDs :=
         fold_left (fun acc result => (acc ++ result)%list)
           dbLookUpPromisesResult [] in
       recommendationsResult <- await (getRecommendations recommendationIDs) ;;
       let recommendations :=
         map (fun reco =>
                mkRecommendation (resource_name reco) (resource_etag reco))
           recommendationsResult in
       await (setRecommendationStatus recommendations "markSucceeded") ;;
       res (Express.sendStatus 201)
     else
       res (Express.sendStatus 200))
    (fun e =>
       res (Express.status 500) ;;
       res (Express.send (toString e))).

End Routes.

(** ** Running a handler *)

(** One observable step of a run: a collaborator call with the way its
    promise settled, or a reading of the clock. *)
Inductive Entry : Type :=
| Called (c : Call) (r : result Data)
| Clock (now : string).

Record Run (W A : Type) : Type :=
  mkRun {
    trace : list Entry;
    response : Express.Response;
    outcome : result A;     (* the handler's promise: fulfilled or rejected *)
    world : W               (* the world the run leaves behind *)
  }.
Arguments mkRun {W A} trace response outcome world.
Arguments trace {W A} r.
Arguments response {W A} r.
Arguments outcome {W A} r.
Arguments world {W A} r.

(** A run preceded by the entries [es]. *)
Definition after {W A : Type} (es : list Entry) (r : Run W A) : Run W A :=
  mkRun (es ++ trace r)%list (response r) (outcome r) (world r).

Section Exec.

(** The world outside the handler: a state, how each collaborator call is
    answered in a state, what the clock reads, and, when several promises
    are rejected, the position among them of the one rejected first. *)
Variable W : Type.
Variable handle : forall c : Call, W -> result (Payload c) * W.
Variable clock : W -> string * W.
Variable earliest : W -> nat * W.

Fixpoint exec {A : Type} (p : Prog A) (w : W) (r : Express.Response)
  : Run W A :=
  match p with
  | Ret a => mkRun [] r (Ok a) w
  | Throw e => mkRun [] r (Err e) w
  | Do c k =>
      let (x, w') := handle c w in
      after [Called c (reify c x)] (exec (k x) w' r)
  | Now k =>
      let (now, w') := clock w in
      after [Clock now] (exec (k now) w' r)
  | Res op k =>
      let (x, r') := Express.step op r in
      exec (k x) w r'
  | Earliest e others k =>
      let (n, w') := earliest w in
      exec (k (nth n (e :: others) e)) w' r
  end.

(** A handler is entered with a response on which nothing has been sent. *)
Definition serve {A : Type} (p : Prog A) (w : W) : Run W A :=
  exec p w Express.fresh.

End Exec.

(** What the client has received: status code and body. *)
Definition received {W A : Type} (r : Run W A) : option (nat * string) :=
  Express.sent (response r).

(** The collaborator calls of a trace, in order. *)
Fixpoint calls (t : list Entry) : list Call :=
  match t with
  | [] => []
  | Called c _ :: rest => c :: calls rest
  | Clock _ :: rest => calls rest
  end.

(** ** Sample worlds

    A world without state of its own: every call is answered from a script,
    and the clock always reads the same. *)

Record Script : Type :=
  mkScript {
    listing : result (list Recommendation);
    applied : list Recommendation -> result (list Recommendation);
    parents : result (list string);
    index : string -> result (list string);
    tokens : list string -> result (list Resource)
  }.

Definition scripted (s : Script) (c : Call) (w : unit)
  : result (Payload c) * unit :=
  (match c return result (Payload c) with
   | recommender_list _ _ => listing s
   | terraform_apply _ _ recommendations => applied s recommendations
   | cloneRepository _ _ => Ok tt
   | commitChanges _ _ => Ok (mkCommit "4f2a9c1" "recommendations-1")
   | createPullRequest _ _ _ => Ok tt
   | createCommit _ _ _ => Ok tt
   | getCommit _ commitID => index s commitID
   | getParentCommits _ _ => parents s
   | getRecommendations recommendationIDs => tokens s recommendationIDs
   | setRecommendationStatus _ _ => Ok tt
   end, w).

Definition wall_clock (w : unit) : string * unit :=
  ("11/3/2026, 9:30:00 AM", w).

(** Of several rejected promises, the first in the list is the first in
    time; or the second is. *)
Definition in_order (w : unit) : nat * unit := (0, w).
Definition second_first (w : unit) : nat * unit := (1, w).

(** A piece of the Unicode table: the dotless i (bytes 196, 177) becomes
    I, the long s (bytes 197, 191) becomes S; other runs are kept. *)
Definition dotless_i : string :=
  String (ascii_of_nat 196) (String (ascii_of_nat 177) EmptyString).

Definition long_s : string :=
  String (ascii_of_nat 197) (String (ascii_of_nat 191) EmptyString).

Definition sample_upper (run : string) : string :=
  if String.eqb run dotless_i then "I"
  else if String.eqb run long_s then "S"
  else run.

Definition r1 : Recommendation := mkRecommendation "r1" "etag-1".
Definition r2 : Recommendation := mkRecommendation "r2" "etag-2".

Definition fresh_token (recommendationID : string) : Resource :=
  mkResource recommendationID ("fresh-" ++ recommendationID).

(** The index of the overlap example: c1 -> r1, r2 and c2 -> r2, r3. *)
Definition overlapping_ids (commitID : string) : list string :=
  if String.eqb commitID "c1" then ["r1"; "r2"]
  else if String.eqb commitID "c2" then ["r2"; "r3"]
  else [].

Definition overlapping_index (commitID : string) : result (list string) :=
  Ok (overlapping_ids commitID).

(** Every collaborator succeeds; the applier stages every recommendation;
    the recommender returns one resource per requested ID. *)
Definition happy : Script :=
  mkScript (Ok [r1; r2]) (fun l => Ok l) (Ok ["c1"; "c2"])
    overlapping_index (fun ids => Ok (map fresh_token ids)).

Definition nothing_listed : Script :=
  mkScript (Ok []) (fun l => Ok l) (Ok ["c1"; "c2"])
    overlapping_index (fun ids => Ok (map fresh_token ids)).

Definition nothing_staged : Script :=
  mkScript (Ok [r1; r2]) (fun _ => Ok []) (Ok ["c1"; "c2"])
    overlapping_index (fun ids => Ok (map fresh_token ids)).

Definition quota_exceeded : Error := mkError "Error" "quota exceeded".

Definition listing_fails : Script :=
  mkScript (Err quota_exceeded) (fun l => Ok l) (Ok ["c1"; "c2"])
    overlapping_index (fun ids => Ok (map fresh_token ids)).

Definition nothing_indexed : Script :=
  mkScript (Ok [r1; r2]) (fun l => Ok l) (Ok ["c1"; "c2"])
    (fun _ => Ok []) (fun ids => Ok (map fresh_token ids)).

Definition account : option string := Some "github.com:acme".

Definition vm_request : ApplyRequest :=
  mkApplyRequest "vm" "infra" ["project-a"; "project-b"].

Definition db_request : ApplyRequest :=
  mkApplyRequest "db" "infra" ["project-a"].

Definition success_event : CiRequest := mkCiRequest "success-event".
Definition failure_event : CiRequest := mkCiRequest "failure-event".
Definition garbled_event : CiRequest := mkCiRequest "bm90IGpzb24=".

(** Runs of the two handlers in a scripted world. *)
Definition sample_apply (s : Script) (req : ApplyRequest) : Run unit unit :=
  serve unit (scripted s) wall_clock in_order
    (applyRecommendations account sample_upper req) tt.

(** A parser for two payloads: a successful build of commit c in
    repository infra, and a failed build; anything else is malformed. *)
Definition success_payload : Json :=
  JObj [("status", JStr "SUCCESS");
        ("substitutions",
         JObj [("COMMIT_SHA", JStr "c"); ("REPO_NAME", JStr "infra")])].

Definition failure_payload : Json :=
  JObj [("status", JStr "FAILURE");
        ("substitutions",
         JObj [("COMMIT_SHA", JStr "c"); ("REPO_NAME", JStr "infra")])].

Definition unexpected_token : Error :=
  mkError "SyntaxError" "Unexpected token o in JSON at position 1".

Definition sample_parse (data : string) : result Json :=
  if String.eqb data "success-event" then Ok success_payload
  else if String.eqb data "failure-event" then Ok failure_payload
  else Err unexpected_token.

Definition sample_ci (s : Script) (req : CiRequest) : Run unit unit :=
  serve unit (scripted s) wall_clock in_order
    (ci account sample_parse req) tt.

(** The run of [vm_request] in the world [happy], entry by entry. *)
Definition sample_commit_message : string :=
  "Recommended VM Rightsizing as on 11/3/2026, 9:30:00 AM".

Definition sample_commit : Commit := mkCommit "4f2a9c1" "recommendations-1".

Definition before_commit : list Entry :=
  [Called (recommender_list listVMResizeRecommendations
             ["project-a"; "project-b"])
     (Ok (DRecommendations [r1; r2]));
   Called (cloneRepository "git@github.com:acme/infra.git" "infra")
     (Ok DNone);
   Called (terraform_apply applyVMResizeRecommendations "infra" [r1; r2])
     (Ok (DRecommendations [r1; r2]));
   Clock "11/3/2026, 9:30:00 AM"].

Definition before_claim : list Entry :=
  (before_commit ++
   [Called (commitChanges sample_commit_message "infra")
      (Ok (DCommit sample_commit));
    Called (createPullRequest "git@github.com:acme/infra.git"
              "recommendations-1" sample_commit_message)
      (Ok DNone);
    Called (createCommit "infra" "4f2a9c1" [r1; r2]) (Ok DNone)])%list.

(** ** Vocabulary of the statements *)

(** [d] is the letter [c] in either case: [c] itself, or the character
    whose upper-case form is [c]. *)
Definition same_letter (c d : ascii) : bool :=
  Ascii.eqb c d || Ascii.eqb c (upperAscii d).

(** [spelling] writes [category] letter for letter, case apart. *)
Fixpoint spells (category spelling : string) : bool :=
  match category, spelling with
  | EmptyString, EmptyString => true
  | String c category', String d spelling' =>
      same_letter c d && spells category' spelling'
  | _, _ => false
  end.

(** The calls that write: commit, review request, persisted record and
    status change. *)
Definition writes (c : Call) : bool :=
  match c with
  | commitChanges _ _ | createPullRequest _ _ _ | createCommit _ _ _
  | setRecommendationStatus _ _ => true
  | _ => false
  end.

(** The values of a list of promises when every one is fulfilled. *)
Definition fulfilled {X : Type} (promises : list (result X))
  : option (list X) :=
  match rejections promises with
  | [] => Some (values promises)
  | _ :: _ => None
  end.

(** The value of [v.k] when reading it does not throw. *)
Definition field (v : Value) (k : string) : Value :=
  match v with
  | Some (JObj props) => lookup k props
  | _ => None
  end.

(** The [{id, etag}] entry the reconciliation builds from a resource. *)
Definition entry_of (reco : Resource) : Recommendation :=
  mkRecommendation (resource_name reco) (resource_etag reco).

(** The reason of the first rejected call of a trace, if any. *)
Fixpoint first_rejection (t : list Entry) : option Error :=
  match t with
  | [] => None
  | Called _ (Err e) :: _ => Some e
  | _ :: rest => first_rejection rest
  end.

(** The category a listing function, and an applier, belongs to. *)
Definition list_category (fn : ListFn) : string :=
  match fn with
  | listVMResizeRecommendations => "VM"
  | listIAMRecommendations => "IAM"
  end.

Definition apply_category (fn : ApplyFn) : string :=
  match fn with
  | applyVMResizeRecommendations => "VM"
  | applyIAMRecommendations => "IAM"
  end.

(** The commit message that goes with an applier, for a clock reading. *)
Definition message_for (fn : ApplyFn) (now : string) : string :=
  match fn with
  | applyVMResizeRecommendations => "Recommended VM Rightsizing as on " ++ now
  | applyIAMRecommendations => "Recommended IAM Updates as on " ++ now
  end.

(** The trace entries of the per-commit lookups: commit by commit, the
    call and the way it settled. *)
Definition lookup_entry (repoName : Value)
    (ca : string * result (list string)) : Entry :=
  Called (getCommit repoName (fst ca))
    (match snd ca with
     | Ok ids => Ok (DStrings ids)
     | Err e => Err e
     end).

Definition lookup_entries (repoName : Value) (commits : list string)
    (answers : list (result (list string))) : list Entry :=
  map (lookup_entry repoName) (combine commits answers).

Definition is_lookup (c : Call) : bool :=
  match c with
  | getCommit _ _ => true
  | _ => false
  end.

(** More sample worlds: a lookup that times out for commit c2, a token
    refresh that is refused, an applier that fails. *)
Definition timed_out : Error := mkError "Error" "deadline exceeded".

Definition lookup_fails : Script :=
  mkScript (Ok [r1; r2]) (fun l => Ok l) (Ok ["c1"; "c2"; "c3"])
    (fun c => if String.eqb c "c2" then Err timed_out
              else Ok (overlapping_ids c))
    (fun ids => Ok (map fresh_token ids)).

Definition refresh_fails : Script :=
  mkScript (Ok [r1; r2]) (fun l => Ok l) (Ok ["c1"; "c2"])
    overlapping_index (fun _ => Err timed_out).

Definition applier_fails : Script :=
  mkScript (Ok [r1; r2]) (fun _ => Err timed_out) (Ok ["c1"; "c2"])
    overlapping_index (fun ids => Ok (map fresh_token ids)).

(** Two lookups that both fail. *)
Definition slow_failure : Error := mkError "Error" "slow failure".
Definition fast_failure : Error := mkError "Error" "fast failure".

Definition both_lookups_fail : Script :=
  mkScript (Ok [r1; r2]) (fun l => Ok l) (Ok ["c1"; "c2"])
    (fun c => if String.eqb c "c1" then Err slow_failure
              else Err fast_failure)
    (fun ids => Ok (map fresh_token ids)).

(** A parser for more payloads: [null]; a successful build whose
    [substitutions] object is empty; a build whose [status] is an object
    with a [toString] key; a successful build whose [REPO_NAME] is such
    an object. *)
Definition bare_payload : Json :=
  JObj [("status", JStr "SUCCESS"); ("substitutions", JObj [])].

Definition odd_status_payload : Json :=
  JObj [("status", JObj [("toString", JNum "1")]);
        ("substitutions",
         JObj [("COMMIT_SHA", JStr "c"); ("REPO_NAME", JStr "infra")])].

Definition odd_repo_payload : Json :=
  JObj [("status", JStr "SUCCESS");
        ("substitutions",
         JObj [("COMMIT_SHA", JStr "c");
               ("REPO_NAME", JObj [("toString", JNum "1")])])].

Definition edge_parse (data : string) : result Json :=
  if String.eqb data "null-event" then Ok JNull
  else if String.eqb data "bare-event" then Ok bare_payload
  else if String.eqb data "odd-status-event" then Ok odd_status_payload
  else if String.eqb data "odd-repo-event" then Ok odd_repo_payload
  else Err unexpected_token.

Definition null_event : CiRequest := mkCiRequest "null-event".
Definition bare_event : CiRequest := mkCiRequest "bare-event".
Definition odd_status_event : CiRequest := mkCiRequest "odd-status-event".
Definition odd_repo_event : CiRequest := mkCiRequest "odd-repo-event".

Definition edge_ci (s : Script) (req : CiRequest) : Run unit unit :=
  serve unit (scripted s) wall_clock in_order
    (ci account edge_parse req) tt.

(** Prefixes of the runs in the world [happy]. *)
Definition listed_and_cloned : list Entry :=
  [Called (recommender_list listVMResizeRecommendations
             ["project-a"; "project-b"])
     (Ok (DRecommendations [r1; r2]));
   Called (cloneRepository "git@github.com:acme/infra.git" "infra")
     (Ok DNone)].

Definition looked_up_and_refreshed : list Entry :=
  [Called (getParentCommits "github.com:acme/infra" (Some (JStr "c")))
     (Ok (DStrings ["c1"; "c2"]));
   Called (getCommit (Some (JStr "infra")) "c1") (Ok (DStrings ["r1"; "r2"]));
   Called (getCommit (Some (JStr "infra")) "c2") (Ok (DStrings ["r2"; "r3"]));
   Called (getRecommendations ["r1"; "r2"; "r2"; "r3"])
     (Ok (DResources (map fresh_token ["r1"; "r2"; "r2"; "r3"])))].

(** ** Auxiliary facts *)

Lemma upperAscii_idempotent (c : ascii) :
  upperAscii (upperAscii c) = upperAscii c.
Proof.
  destruct c as [[] [] [] [] [] [] [] []]; reflexivity.
Qed.

Lemma upperAscii_isAscii (c : ascii) :
  isAscii (upperAscii c) = isAscii c.
Proof.
  destruct c as [[] [] [] [] [] [] [] []]; reflexivity.
Qed.

Lemma upperAscii_outside_ascii (c : ascii) :
  isAscii c = false -> upperAscii c = c.
Proof.
  destruct c as [[] [] [] [] [] [] [] []]; intro H;
    try reflexivity; discriminate H.
Qed.

Lemma prefix_refl (s : string) : String.prefix s s = true.
Proof.
  induction s as [|c s IH]; cbn; [reflexivity|].
  destruct (ascii_dec c c); [exact IH | congruence].
Qed.

Lemma includes_refl (s : string) : includes s s = true.
Proof.
  destruct s; cbn; [reflexivity|].
  destruct (ascii_dec a a); [|congruence].
  now rewrite prefix_refl.
Qed.

Lemma includes_cons (c : ascii) (s t : string) :
  includes s t = true -> includes (String c s) t = true.
Proof.
  intro H. cbn [includes]. rewrite H.
  now destruct (String.prefix t (String c s)).
Qed.

Lemma includes_append (s t : string) : includes (s ++ t) t = true.
Proof.
  induction s as [|c s IH]; cbn [append].
  - apply includes_refl.
  - now apply includes_cons.
Qed.

Lemma fold_left_app_concat {X : Type} (l : list (list X)) (acc : list X) :
  fold_left (fun acc result => (acc ++ result)%list) l acc
  = (acc ++ concat l)%list.
Proof.
  revert acc; induction l as [|x l IH]; intro acc; cbn.
  - now rewrite app_nil_r.
  - now rewrite IH, app_assoc.
Qed.

Lemma split_nil {X : Type} (pre post : list X) (x : X) :
  [] = (pre ++ x :: post)%list -> False.
Proof. destruct pre; discriminate. Qed.

Lemma split_cons {X : Type} (a : X) (l pre post : list X) (x : X) :
  a :: l = (pre ++ x :: post)%list ->
  (pre = [] /\ a = x /\ l = post)
  \/ (exists pre', pre = a :: pre' /\ l = (pre' ++ x :: post)%list).
Proof.
  destruct pre as [|b pre]; cbn; intro H; injection H as -> ->.
  - now left.
  - right. now exists pre.
Qed.

Lemma same_letter_upperAscii (c d : ascii) :
  same_letter c d = true -> upperAscii d = upperAscii c.
Proof.
  unfold same_letter. intro H.
  apply orb_true_iff in H. destruct H as [H | H].
  - apply Ascii.eqb_eq in H. now subst.
  - apply Ascii.eqb_eq in H. subst c. symmetry.
    apply upperAscii_idempotent.
Qed.

(** Two spellings of one word have the same non-ASCII runs and the same
    letters case apart, so any Unicode table upper-cases them alike. *)
Lemma spells_upperFrom (unicodeUpper : string -> string)
    (category spelling run : string) :
  spells category spelling = true ->
  upperFrom unicodeUpper run spelling = upperFrom unicodeUpper run category.
Proof.
  revert spelling run; induction category as [|c category IH];
    intros [|d spelling] run; cbn [spells upperFrom]; try discriminate;
    [reflexivity|].
  intro H. apply andb_true_iff in H. destruct H as [Hc Hs].
  pose proof (same_letter_upperAscii _ _ Hc) as Hup.
  destruct (isAscii d) eqn:Hd.
  - assert (Hc' : isAscii c = true).
    { rewrite <- upperAscii_isAscii, <- Hup, upperAscii_isAscii. exact Hd. }
    rewrite Hc', Hup. now rewrite (IH _ EmptyString Hs).
  - assert (Hcd : c = d).
    { unfold same_letter in Hc. apply orb_true_iff in Hc.
      destruct Hc as [Hc | Hc]; apply Ascii.eqb_eq in Hc; [exact Hc|].
      now rewrite (upperAscii_outside_ascii _ Hd) in Hc. }
    subst c. rewrite Hd. apply (IH _ _ Hs).
Qed.

Lemma spells_toUpperCase (unicodeUpper : string -> string)
    (category spelling : string) :
  spells category spelling = true ->
  toUpperCase unicodeUpper spelling = toUpperCase unicodeUpper category.
Proof. apply spells_upperFrom. Qed.

Lemma truthy_member (v : Value) (k : string) :
  truthy v = true -> member v k = Ok (field v k).
Proof.
  destruct v as [[| | | | |]|]; cbn; try discriminate; reflexivity.
Qed.

Lemma eq_SUCCESS_string (s : string) :
  eq_SUCCESS (Some (JStr s)) = Ok true <-> s = "SUCCESS".
Proof.
  cbn. split.
  - intro H. injection H as H. now apply String.eqb_eq.
  - intro H. f_equal. now apply String.eqb_eq.
Qed.

(** A payload that compares equal to 'SUCCESS' is not [null]. *)
Lemma eq_SUCCESS_field_truthy (payload : Json) :
  eq_SUCCESS (field (Some payload) "status") = Ok true ->
  truthy (Some payload) = true.
Proof.
  destruct payload; cbn; try discriminate; reflexivity.
Qed.

Lemma member_field (payload : Json) (k : string) :
  payload <> JNull -> member (Some payload) k = Ok (field (Some payload) k).
Proof.
  destruct payload; intro H; try reflexivity. now destruct H.
Qed.

Lemma concat_map_nil {X Y : Type} (l : list X) :
  concat (map (fun _ => @nil Y) l) = [].
Proof.
  induction l as [|x l IH]; cbn; [reflexivity | exact IH].
Qed.

Lemma calls_app (t t' : list Entry) :
  calls (t ++ t') = (calls t ++ calls t')%list.
Proof.
  induction t as [|[c r | now] t IH]; cbn; [reflexivity | | exact IH].
  now rewrite IH.
Qed.

Lemma calls_map_Called {X : Type} (f : X -> Call) (g : X -> result Data)
    (l : list X) :
  calls (map (fun x => Called (f x) (g x)) l) = map f l.
Proof.
  induction l as [|x l IH]; cbn; [reflexivity|]. now rewrite IH.
Qed.

Lemma rejections_fulfilled {X : Type} (l : list X) :
  rejections (map (@Ok X) l) = [].
Proof.
  induction l as [|x l IH]; cbn; [reflexivity | exact IH].
Qed.

Lemma values_fulfilled {X : Type} (l : list X) :
  values (map (@Ok X) l) = l.
Proof.
  induction l as [|x l IH]; cbn; [reflexivity|]. now rewrite IH.
Qed.

(** A list of promises is all fulfilled exactly when it is the list of
    its values. *)
Lemma fulfilled_spec {X : Type} (promises : list (result X)) (l : list X) :
  fulfilled promises = Some l <-> promises = map (@Ok X) l.
Proof.
  unfold fulfilled. split.
  - revert l; induction promises as [|[x | e] promises IH]; intros l H;
      cbn in H.
    + injection H as <-. reflexivity.
    + destruct (rejections promises) eqn:Hr; [|discriminate H].
      injection H as <-. cbn. f_equal. now apply IH.
    + discriminate H.
  - intros ->. now rewrite rejections_fulfilled, values_fulfilled.
Qed.

Lemma earliest_is_a_rejection (n : nat) (e : Error) (others : list Error) :
  In (nth n (e :: others) e) (e :: others).
Proof.
  destruct (Nat.lt_ge_cases n (length (e :: others))) as [Hlt | Hge].
  - now apply nth_In.
  - rewrite nth_overflow by exact Hge. now left.
Qed.

(** ** Facts about traces *)

Lemma first_rejection_app (t t' : list Entry) :
  first_rejection (t ++ t')
  = match first_rejection t with
    | Some e => Some e
    | None => first_rejection t'
    end.
Proof.
  induction t as [|[c [d | e] | now] t IH]; cbn; auto.
Qed.

Lemma first_rejection_lookups (repoName : Value) (commits : list string)
    (answers : list (result (list string))) :
  length answers = length commits ->
  first_rejection (lookup_entries repoName commits answers)
  = hd_error (rejections answers).
Proof.
  revert answers; induction commits as [|c commits IH];
    intros [|[ids | e] answers] Hlen; try discriminate Hlen;
    try reflexivity.
  injection Hlen as Hlen. unfold lookup_entries in *; cbn.
  exact (IH _ Hlen).
Qed.

Lemma rejection_in_lookups (repoName : Value) (commits : list string)
    (answers : list (result (list string))) (e : Error) :
  length answers = length commits ->
  In e (rejections answers) ->
  exists c,
    In (Called (getCommit repoName c) (Err e))
      (lookup_entries repoName commits answers).
Proof.
  revert answers; induction commits as [|c commits IH];
    intros [|[ids | e'] answers] Hlen Hin; try discriminate Hlen;
    cbn in Hin; try contradiction; injection Hlen as Hlen.
  - destruct (IH _ Hlen Hin) as (c' & Hc'). exists c'. now right.
  - destruct Hin as [-> | Hin]; [exists c; now left|].
    destruct (IH _ Hlen Hin) as (c' & Hc'). exists c'. now right.
Qed.

Lemma lookups_are_lookups (repoName : Value) (commits : list string)
    (answers : list (result (list string))) :
  forallb is_lookup (calls (lookup_entries repoName commits answers)) = true.
Proof.
  revert answers; induction commits as [|c commits IH];
    intros [|a answers]; try reflexivity.
  unfold lookup_entries in *; cbn. apply IH.
Qed.

Lemma forallb_calls_suffix (P : Call -> bool) (pre post : list Entry)
    (x : Entry) :
  forallb P (calls (pre ++ x :: post)) = true ->
  forallb P (calls post) = true.
Proof.
  rewrite calls_app, forallb_app. intro H.
  apply andb_true_iff in H. destruct H as [_ H].
  destruct x as [c r | now]; cbn in H; [|exact H].
  apply andb_true_iff in H. now destruct H.
Qed.

Lemma forallb_calls_mid (P : Call -> bool) (pre post : list Entry)
    (c : Call) (r : result Data) :
  forallb P (calls (pre ++ Called c r :: post)) = true -> P c = true.
Proof.
  rewrite calls_app, forallb_app. intro H.
  apply andb_true_iff in H. destruct H as [_ H]. cbn in H.
  apply andb_true_iff in H. now destruct H.
Qed.

Lemma lookup_in (repoName : Value) (commits : list string)
    (answers : list (result (list string))) (x : Entry) :
  In x (lookup_entries repoName commits answers) ->
  exists c r, x = Called (getCommit repoName c) r.
Proof.
  unfold lookup_entries. intro Hin. apply in_map_iff in Hin.
  destruct Hin as ([c a] & <- & _). now eexists c, _.
Qed.

Lemma fulfilled_lookup_in (repoName : Value) (commits : list string)
    (answers : list (result (list string))) (lists : list (list string))
    (x : Entry) :
  fulfilled answers = Some lists ->
  In x (lookup_entries repoName commits answers) ->
  exists c ids, x = Called (getCommit repoName c) (Ok (DStrings ids)).
Proof.
  intro Hall. apply fulfilled_spec in Hall. subst answers.
  unfold lookup_entries. intro Hin. apply in_map_iff in Hin.
  destruct Hin as ([c a] & <- & Hin).
  apply in_combine_r in Hin. apply in_map_iff in Hin.
  destruct Hin as (ids & <- & _). now exists c, ids.
Qed.

(** An entry that does not occur in [l] is found past [l]. *)
Lemma split_past {X : Type} (l tail pre post : list X) (x : X) :
  (pre ++ x :: post)%list = (l ++ tail)%list ->
  ~ In x l ->
  exists pre', pre = (l ++ pre')%list /\ (pre' ++ x :: post)%list = tail.
Proof.
  revert pre; induction l as [|a l IH]; intros pre H Hnot.
  - now exists pre.
  - destruct pre as [|b pre]; cbn in H; injection H as -> H.
    + exfalso. apply Hnot. now left.
    + destruct (IH pre H) as (pre' & -> & Htail).
      * intro Hin. apply Hnot. now right.
      * now exists pre'.
Qed.

(** Two lists of lookups of the same commits that begin equal traces hold
    the same answers, and what follows them is equal. *)
Lemma lookup_entries_inj (repoName repoName' : Value)
    (commits : list string) (answers answers' : list (result (list string)))
    (tail tail' : list Entry) :
  length answers = length commits ->
  length answers' = length commits ->
  (lookup_entries repoName commits answers ++ tail)%list
  = (lookup_entries repoName' commits answers' ++ tail')%list ->
  answers = answers' /\ tail = tail'.
Proof.
  revert answers answers'; induction commits as [|c commits IH];
    intros [|a answers] [|a' answers'] Hlen Hlen' H;
    try discriminate Hlen; try discriminate Hlen'.
  - now split.
  - injection Hlen as Hlen. injection Hlen' as Hlen'.
    unfold lookup_entries in H; cbn in H. injection H as _ Ha H.
    destruct (IH answers answers' Hlen Hlen' H) as [-> ->].
    split; [| reflexivity]. f_equal.
    destruct a as [ids | e], a' as [ids' | e']; congruence.
Qed.

(** ** Laws of [exec] *)

Section ExecLaws.

Variable W : Type.
Variable handle : forall c : Call, W -> result (Payload c) * W.
Variable clock : W -> string * W.
Variable earliest : W -> nat * W.

Local Abbreviation ex p w r := (exec W handle clock earliest p w r).

Lemma after_after {A : Type} (es es' : list Entry) (r : Run W A) :
  after es (after es' r) = after (es ++ es')%list r.
Proof. unfold after; cbn. now rewrite app_assoc. Qed.

Lemma after_nil {A : Type} (r : Run W A) : after [] r = r.
Proof. now destruct r. Qed.

(** Sequencing: the continuation runs where the first part stopped, unless
    that part threw. *)
Lemma exec_bind {A B : Type} (m : Prog A) (k : A -> Prog B)
    (w : W) (r : Express.Response) :
  ex (bind m k) w r
  = match outcome (ex m w r) with
    | Ok a =>
        after (trace (ex m w r))
          (ex (k a) (world (ex m w r)) (response (ex m w r)))
    | Err e =>
        mkRun (trace (ex m w r)) (response (ex m w r)) (Err e)
          (world (ex m w r))
    end.
Proof.
  revert w r;
    induction m as [a | e | c k' IH | k' IH | op k' IH | e others k' IH];
    intros w r; cbn.
  - now rewrite after_nil.
  - reflexivity.
  - destruct (handle c w) as [x w']. rewrite IH.
    destruct (ex (k' x) w' r) as [t rs [a|e] wf];
      reflexivity.
  - destruct (clock w) as [now w']. rewrite IH.
    destruct (ex (k' now) w' r) as [t rs [a|e] wf];
      reflexivity.
  - destruct (Express.step op r) as [x r']. apply IH.
  - destruct (earliest w) as [n w']. apply IH.
Qed.

(** [try]/[catch]: the handler runs where the body threw. *)
Lemma exec_try_catch {A : Type} (m : Prog A) (h : Error -> Prog A)
    (w : W) (r : Express.Response) :
  ex (try_catch m h) w r
  = match outcome (ex m w r) with
    | Ok _ => ex m w r
    | Err e =>
        after (trace (ex m w r))
          (ex (h e) (world (ex m w r)) (response (ex m w r)))
    end.
Proof.
  revert w r;
    induction m as [a | e | c k' IH | k' IH | op k' IH | e others k' IH];
    intros w r; cbn.
  - reflexivity.
  - now rewrite after_nil.
  - destruct (handle c w) as [x w']. rewrite IH.
    destruct (ex (k' x) w' r) as [t rs [a|e] wf]; cbn; [reflexivity|].
    now rewrite after_after.
  - destruct (clock w) as [now w']. rewrite IH.
    destruct (ex (k' now) w' r) as [t rs [a|e] wf]; cbn; [reflexivity|].
    now rewrite after_after.
  - destruct (Express.step op r) as [x r']. apply IH.
  - destruct (earliest w) as [n w']. apply IH.
Qed.

(** The per-commit lookups, however the index answers: one call per
    commit, in order, each promise kept as it settled. *)
Lemma exec_map_getCommit_any (repoName : Value) (commits : list string)
    (w : W) (r : Express.Response) :
  exists (answers : list (result (list string))) (w' : W),
    length answers = length commits
    /\ ex (map_getCommit repoName commits) w r
       = mkRun (lookup_entries repoName commits answers) r (Ok answers) w'.
Proof.
  revert w; induction commits as [|c commits IH]; intro w; cbn.
  - now exists [], w.
  - destruct (handle (getCommit repoName c) w) as [x w1].
    destruct (IH w1) as (answers & w' & Hlen & Hrun).
    exists (x :: answers), w'. split; [cbn; now rewrite Hlen|].
    rewrite exec_bind, Hrun. unfold after, lookup_entries; cbn.
    rewrite app_nil_r. now destruct x.
Qed.

(** [Promise.all] on settled promises: the values, or the reason of one of
    the rejected promises. *)
Lemma exec_all {X : Type} (promises : list (result X))
    (w : W) (r : Express.Response) :
  match fulfilled promises with
  | Some l => ex (all promises) w r = mkRun [] r (Ok l) w
  | None =>
      exists e w',
        In e (rejections promises)
        /\ ex (all promises) w r = mkRun [] r (Err e) w'
  end.
Proof.
  unfold fulfilled, all.
  destruct (rejections promises) as [|e others]; cbn; [reflexivity|].
  destruct (earliest w) as [n w'].
  exists (nth n (e :: others) e), w'.
  split; [apply earliest_is_a_rejection | reflexivity].
Qed.

End ExecLaws.

(** ** The Apply Workflow *)

Section Apply.

Variable BASE_REPO : option string.
Variable unicodeUpper : string -> string.
Variable W : Type.
Variable handle : forall c : Call, W -> result (Payload c) * W.
Variable clock : W -> string * W.
Variable earliest : W -> nat * W.

Local Abbreviation run_apply req w :=
  (serve W handle clock earliest
     (applyRecommendations BASE_REPO unicodeUpper req) w).

(** Answer the next pending collaborator call or clock reading. *)
Ltac answer :=
  match goal with
  | |- context [handle ?c ?w] =>
      let x := fresh "x" in
      let e := fresh "e" in
      let w' := fresh "w" in
      destruct (handle c w) as [[x | e] w']
  | |- context [clock ?w] =>
      let now := fresh "now" in
      let w' := fresh "w" in
      destruct (clock w) as [now w']
  end; cbn.

(** Locate an entry in an explicit trace. *)
Ltac locate H :=
  first
    [ apply split_nil in H; contradiction
    | apply split_cons in H;
      let pre' := fresh "pre" in
      destruct H as [(-> & H & <-) | (pre' & -> & H)];
      [ try discriminate H | locate H ] ].

(** C1. For every category whose upper-case form is neither VM nor IAM,
    the handler sends status 500 with body "Unknown operation" and calls no
    collaborator at all. *)
Theorem unsupported_category_calls_nothing (req : ApplyRequest) (w : W) :
  toUpperCase unicodeUpper (params_type req) <> "VM" ->
  toUpperCase unicodeUpper (params_type req) <> "IAM" ->
  trace (run_apply req w) = []
  /\ received (run_apply req w) = Some (500, "Unknown operation").
Proof.
  intros Hvm Hiam.
  apply String.eqb_neq in Hvm, Hiam.
  unfold serve, received, applyRecommendations.
  rewrite Hvm, Hiam. cbn. split; reflexivity.
Qed.

(** C4. When the listing resolves to an empty sequence the run consists of
    that one call, and the client receives 200 "Nothing to apply". *)
Theorem empty_listing_is_a_noop (req : ApplyRequest) (w : W)
    (fn : ListFn) (projectIDs : list string) (rest : list Entry) :
  trace (run_apply req w)
  = Called (recommender_list fn projectIDs) (Ok (DRecommendations [])) :: rest ->
  rest = []
  /\ received (run_apply req w) = Some (200, "Nothing to apply")
  /\ outcome (run_apply req w) = Ok tt.
Proof.
  unfold serve, received, applyRecommendations.
  destruct (String.eqb (toUpperCase unicodeUpper (params_type req)) "VM");
    [| destruct (String.eqb (toUpperCase unicodeUpper (params_type req)) "IAM")];
    cbn; try discriminate.
  all: answer; try discriminate.
  all: destruct x as [|r l]; cbn; try discriminate.
  all: intro H; injection H as _ _ <-; repeat split; reflexivity.
Qed.

(** C5. When the applier resolves to an empty claimed subset, that call is
    the last of the run, no call before it is a commit, a review request, a
    persisted record or a status change, and the client receives
    201 "Created". *)
Theorem empty_claim_is_a_noop (req : ApplyRequest) (w : W)
    (fn : ApplyFn) (repoName : string) (recommendations : list Recommendation)
    (pre post : list Entry) :
  trace (run_apply req w)
  = (pre ++ Called (terraform_apply fn repoName recommendations)
              (Ok (DRecommendations [])) :: post)%list ->
  post = []
  /\ forallb (fun c => negb (writes c)) (calls pre) = true
  /\ received (run_apply req w) = Some (201, "Created")
  /\ outcome (run_apply req w) = Ok tt.
Proof.
  unfold serve, received, applyRecommendations.
  destruct (String.eqb (toUpperCase unicodeUpper (params_type req)) "VM");
    [| destruct (String.eqb (toUpperCase unicodeUpper (params_type req)) "IAM")];
    cbn.
  3: { intro H. locate H. }
  all: answer; [destruct x as [|r l]; cbn |]; try (intro H; now locate H).
  all: answer; try (intro H; now locate H).
  all: answer; [destruct x0 as [|r' l']; cbn |]; try (intro H; now locate H).
  all: try (intro H; locate H; injection H as _ _ _; repeat split; reflexivity).
  all: repeat answer; intro H; locate H.
Qed.

(** C3. A status change to CLAIMED is preceded, in every run, by the
    commit it belongs to and by the fulfilled [db.createCommit] call that
    records the repository name, that commit's identifier and the same
    recommendations. *)
Theorem record_persisted_before_claim (req : ApplyRequest) (w : W)
    (claimed : list Recommendation) (r : result Data)
    (pre post : list Entry) :
  trace (run_apply req w)
  = (pre ++ Called (setRecommendationStatus claimed "markClaimed") r
         :: post)%list ->
  exists (commitMessage : string) (commit' : Commit) (before : list Entry),
    In (Called (commitChanges commitMessage (body_repo req))
          (Ok (DCommit commit'))) before
    /\ pre = (before ++
              [Called (createCommit (body_repo req) (commit commit') claimed)
                 (Ok DNone)])%list.
Proof.
  unfold serve, applyRecommendations.
  destruct (String.eqb (toUpperCase unicodeUpper (params_type req)) "VM");
    [| destruct (String.eqb (toUpperCase unicodeUpper (params_type req)) "IAM")];
    cbn.
  3: { intro H. locate H. }
  all: answer; [destruct x as [|r0 l]; cbn |]; try (intro H; now locate H).
  all: answer; try (intro H; now locate H).
  all: answer; [destruct x0 as [|r' l']; cbn |]; try (intro H; now locate H).
  all: repeat answer; intro H; locate H.
  all: injection H as <- _;
    eexists _, _, [_; _; _; _; _; _]; split; [| reflexivity];
    cbn; auto 10.
Qed.

(** C8. The message of every commit call is built from the reading of the
    clock taken just before it: for category VM it contains
    "VM Rightsizing", for IAM "IAM Updates", and in both it contains that
    reading. *)
Theorem commit_message_names_category (req : ApplyRequest) (w : W)
    (commitMessage repoName : string) (r : result Data)
    (pre post : list Entry) :
  trace (run_apply req w)
  = (pre ++ Called (commitChanges commitMessage repoName) r :: post)%list ->
  exists (now : string) (before : list Entry),
    pre = (before ++ [Clock now])%list
    /\ includes commitMessage now = true
    /\ ((toUpperCase unicodeUpper (params_type req) = "VM"
         /\ includes commitMessage "VM Rightsizing" = true)
        \/ (toUpperCase unicodeUpper (params_type req) = "IAM"
            /\ includes commitMessage "IAM Updates" = true)).
Proof.
  unfold serve, applyRecommendations.
  destruct (String.eqb_spec (toUpperCase unicodeUpper (params_type req)) "VM") as [Hvm|_];
    [| destruct (String.eqb_spec (toUpperCase unicodeUpper (params_type req)) "IAM")
         as [Hiam|_]];
    cbn.
  3: { intro H. locate H. }
  all: answer; [destruct x as [|r0 l]; cbn |]; try (intro H; now locate H).
  all: answer; try (intro H; now locate H).
  all: answer; [destruct x0 as [|r' l']; cbn |]; try (intro H; now locate H).
  all: repeat answer; intro H; locate H.
  all: injection H as <- _; eexists _, [_; _; _]; split; [reflexivity|].
  all: split; [repeat apply includes_cons; apply includes_refl |].
  all: (left; split; [assumption | reflexivity])
       || (right; split; [assumption | reflexivity]).
Qed.

(** C9. A category written in any mix of upper and lower case gives the
    very handler program of the category it spells, so "vm" and "Vm"
    behave as "VM" does and "iam" as "IAM" does. *)
Theorem category_is_case_insensitive
    (category spelling repoName : string) (projectIDs : list string) :
  spells category spelling = true ->
  applyRecommendations BASE_REPO unicodeUpper
    (mkApplyRequest spelling repoName projectIDs)
  = applyRecommendations BASE_REPO unicodeUpper
      (mkApplyRequest category repoName projectIDs).
Proof.
  intro H. apply (spells_toUpperCase unicodeUpper) in H.
  unfold applyRecommendations. cbn [params_type body_repo body_projects].
  now rewrite H.
Qed.

End Apply.

(** ** Build reconciliation *)

Section Reconcile.

Variable BASE_REPO : option string.
Variable JSON_parse_base64 : string -> result Json.
Variable W : Type.
Variable handle : forall c : Call, W -> result (Payload c) * W.
Variable clock : W -> string * W.
Variable earliest : W -> nat * W.

Local Abbreviation run_ci req w :=
  (serve W handle clock earliest (ci BASE_REPO JSON_parse_base64 req) w).

Ltac locate H :=
  first
    [ apply split_nil in H; contradiction
    | apply split_cons in H;
      let pre' := fresh "pre" in
      destruct H as [(-> & H & <-) | (pre' & -> & H)];
      [ try discriminate H | locate H ] ].

(** Every run on an actionable event, case by case: where it stops and
    what the client receives. *)
Lemma ci_actionable_shape (req : CiRequest) (w : W) (payload : Json) :
  let substitutions := field (Some payload) "substitutions" in
  let commitID := field substitutions "COMMIT_SHA" in
  let repoName := field substitutions "REPO_NAME" in
  JSON_parse_base64 (message_data req) = Ok payload ->
  eq_SUCCESS (field (Some payload) "status") = Ok true ->
  truthy substitutions = true ->
  outcome (run_ci req w) = Ok tt
  /\ ((exists e,
         valueToString repoName = Err e
         /\ trace (run_ci req w) = []
         /\ received (run_ci req w) = Some (500, toString e))
      \/ exists text,
           valueToString repoName = Ok text
           /\ let fullRepoName := base_repo_text BASE_REPO ++ "/" ++ text in
              (exists e,
                 trace (run_ci req w)
                 = [Called (getParentCommits fullRepoName commitID) (Err e)]
                 /\ received (run_ci req w) = Some (500, toString e))
              \/ exists commits answers,
                   length answers = length commits
                   /\ ((exists e,
                          fulfilled answers = None
                          /\ In e (rejections answers)
                          /\ trace (run_ci req w)
                             = Called (getParentCommits fullRepoName commitID)
                                 (Ok (DStrings commits))
                               :: lookup_entries repoName commits answers
                          /\ received (run_ci req w)
                             = Some (500, toString e))
                       \/ exists lists,
                            fulfilled answers = Some lists
                            /\ ((exists e,
                                   trace (run_ci req w)
                                   = (Called
                                        (getParentCommits fullRepoName
                                           commitID)
                                        (Ok (DStrings commits))
                                      :: lookup_entries repoName commits
                                           answers
                                      ++ [Called
                                            (getRecommendations
                                               (concat lists))
                                            (Err e)])%list
                                   /\ received (run_ci req w)
                                      = Some (500, toString e))
                                \/ exists resources r,
                                     trace (run_ci req w)
                                     = (Called
                                          (getParentCommits fullRepoName
                                             commitID)
                                          (Ok (DStrings commits))
                                        :: lookup_entries repoName commits
                                             answers
                                        ++ [Called
                                              (getRecommendations
                                                 (concat lists))
                                              (Ok (DResources resources));
                                            Called
                                              (setRecommendationStatus
                                                 (map entry_of resources)
                                                 "markSucceeded") r])%list
                                     /\ match r with
                                        | Ok _ =>
                                            r = Ok DNone
                                            /\ received (run_ci req w)
                                               = Some (201, "Created")
                                        | Err e =>
                                            received (run_ci req w)
                                            = Some (500, toString e)
                                        end))).
Proof.
  intros substitutions commitID repoName Hparse Hstatus Htruthy.
  unfold serve, received, ci. rewrite Hparse. cbn [settle bind].
  pose proof (eq_SUCCESS_field_truthy payload Hstatus) as Hpayload.
  rewrite (truthy_member _ "status" Hpayload). cbn [settle bind].
  rewrite Hstatus. cbn [settle bind].
  rewrite (truthy_member _ "substitutions" Hpayload). cbn [settle bind].
  fold substitutions. rewrite Htruthy.
  rewrite !(truthy_member substitutions _ Htruthy). cbn [settle bind].
  fold commitID repoName.
  rewrite exec_try_catch.
  destruct (valueToString repoName) as [text | e]; cbn [settle bind].
  2: { cbn. split; [reflexivity|]. left. now exists e. }
  cbn [await bind exec].
  destruct (handle (getParentCommits (base_repo_text BASE_REPO ++ "/" ++ text)
                      commitID) w)
    as [[commits | e] w1]; cbn [settle bind].
  2: { cbn. split; [reflexivity|]. right. exists text.
       split; [reflexivity|]. left. now exists e. }
  rewrite exec_bind.
  destruct (exec_map_getCommit_any W handle clock earliest repoName commits
              w1 Express.fresh)
    as (answers & w2 & Hlen & ->).
  cbn [outcome trace world response].
  rewrite exec_bind.
  pose proof (exec_all W handle clock earliest answers w2 Express.fresh)
    as Hall.
  destruct (fulfilled answers) as [lists|] eqn:Hful.
  2: { destruct Hall as (e & w3 & Hin & ->). cbn.
       split; [reflexivity|]. right. exists text. split; [reflexivity|].
       right. exists commits, answers. split; [exact Hlen|].
       left. exists e. repeat split; try assumption.
       f_equal. now rewrite ?app_nil_r. }
  rewrite Hall. cbn [outcome trace world response after app].
  rewrite fold_left_app_concat. cbn [app].
  cbn [await bind exec].
  destruct (handle (getRecommendations (concat lists)) w2)
    as [[resources | e] w3]; cbn [settle bind exec].
  2: { cbn. split; [reflexivity|]. right. exists text. split; [reflexivity|].
       right. exists commits, answers. split; [exact Hlen|].
       right. exists lists. split; [exact Hful|].
       left. exists e. split; [| reflexivity]. f_equal.
       now rewrite ?app_nil_r, <- ?app_assoc. }
  change (fun reco : Resource =>
            mkRecommendation (resource_name reco) (resource_etag reco))
    with entry_of.
  destruct (handle (setRecommendationStatus (map entry_of resources)
                      "markSucceeded") w3) as [[[] | e] w4]; cbn.
  all: split; [reflexivity|]; right; exists text; split; [reflexivity|].
  all: right; exists commits, answers; split; [exact Hlen|].
  all: right; exists lists; split; [exact Hful|].
  all: right; eexists resources, _;
    split; [f_equal; now rewrite ?app_nil_r, <- ?app_assoc | cbn; auto].
Qed.

(** A run that calls anything is a run on an actionable event. *)
Lemma ci_quiet_or_actionable (req : CiRequest) (w : W) :
  trace (run_ci req w) = []
  \/ exists payload,
       JSON_parse_base64 (message_data req) = Ok payload
       /\ eq_SUCCESS (field (Some payload) "status") = Ok true
       /\ truthy (field (Some payload) "substitutions") = true.
Proof.
  unfold serve, ci.
  destruct (JSON_parse_base64 (message_data req)) as [payload | e] eqn:Hparse;
    [| now left].
  cbn [settle bind].
  destruct payload as [| b | n | s | items | props] eqn:Hp;
    try (left; reflexivity).
  cbn [member settle bind].
  destruct (eq_SUCCESS (lookup "status" props)) as [[|] | e] eqn:Hs;
    try (now left).
  cbn [settle bind].
  destruct (truthy (lookup "substitutions" props)) eqn:Ht; [| now left].
  right. exists (JObj props). now repeat split.
Qed.

Lemma lookups_found_nothing (repoName : Value) (commits : list string) :
  map (fun c => Called (getCommit repoName c) (Ok (DStrings []))) commits
  = lookup_entries repoName commits
      (map (@Ok (list string)) (map (fun _ => []) commits)).
Proof.
  unfold lookup_entries.
  induction commits as [|c commits IH]; cbn; [reflexivity|].
  now rewrite IH.
Qed.

(** After an ancestry call and lookups that were all fulfilled, the next
    call requests fresh tokens for the concatenation of the lists found;
    a fulfilled request is followed by the status change for the resources
    returned, and an accepted status change by 201 "Created". *)
Lemma ci_after_fulfilled_lookups (req : CiRequest) (w : W)
    (fullRepoName : string) (commitID repoName : Value)
    (commits : list string) (found : list (list string))
    (tail : list Entry) :
  length found = length commits ->
  trace (run_ci req w)
  = (Called (getParentCommits fullRepoName commitID) (Ok (DStrings commits))
     :: lookup_entries repoName commits (map (@Ok (list string)) found)
     ++ tail)%list ->
  exists r tail',
    tail = Called (getRecommendations (concat found)) r :: tail'
    /\ forall resources,
         r = Ok (DResources resources) ->
         exists r',
           tail' = [Called (setRecommendationStatus (map entry_of resources)
                              "markSucceeded") r']
           /\ (r' = Ok DNone ->
               received (run_ci req w) = Some (201, "Created")
               /\ outcome (run_ci req w) = Ok tt).
Proof.
  intros Hfound.
  assert (Hlen' : length (map (@Ok (list string)) found) = length commits)
    by now rewrite length_map.
  destruct (ci_quiet_or_actionable req w)
    as [-> | (payload & Hparse & Hstatus & Htruthy)];
    [discriminate|].
  destruct (ci_actionable_shape req w payload Hparse Hstatus Htruthy)
    as (Hout &
        [(e & _ & -> & _)
        | (text & _ &
           [(e & -> & _)
           | (commits' & answers & Hlen &
              [(e & Hnone & _ & -> & _)
              | (lists & Hall &
                 [(e & -> & Hrec) | (resources & r & -> & Hr)])])])]);
    intro H; try discriminate H; injection H as _ _ <- H.
  - rewrite <- (app_nil_r (lookup_entries _ _ answers)) in H.
    apply lookup_entries_inj in H; try assumption.
    destruct H as [-> _].
    rewrite (proj2 (fulfilled_spec _ found) eq_refl) in Hnone.
    discriminate Hnone.
  - apply lookup_entries_inj in H; try assumption.
    destruct H as [-> <-].
    rewrite (proj2 (fulfilled_spec _ found) eq_refl) in Hall.
    injection Hall as <-.
    eexists _, _. split; [reflexivity|]. intros resources Hr. discriminate Hr.
  - apply lookup_entries_inj in H; try assumption.
    destruct H as [-> <-].
    rewrite (proj2 (fulfilled_spec _ found) eq_refl) in Hall.
    injection Hall as <-.
    eexists _, _. split; [reflexivity|].
    intros resources' Hr'. injection Hr' as <-.
    eexists. split; [reflexivity|].
    intros ->. destruct Hr as [_ Hr]. now split.
Qed.

(** C2, as the code has it. After an ancestry call and lookups that were
    all fulfilled, the handler asks for fresh tokens for the
    concatenation, in ancestor order and with repetitions kept, of the ID
    lists found; when that request is fulfilled it passes to the status
    change one entry per resource returned, in the order returned, and
    when the status change is accepted the client receives 201. *)
Theorem reconciliation_marks_concatenation (req : CiRequest) (w : W)
    (fullRepoName : string) (commitID repoName : Value)
    (commits : list string) (found : list (list string))
    (tail : list Entry) :
  length found = length commits ->
  trace (run_ci req w)
  = (Called (getParentCommits fullRepoName commitID) (Ok (DStrings commits))
     :: lookup_entries repoName commits (map (@Ok (list string)) found)
     ++ tail)%list ->
  exists r tail',
    tail = Called (getRecommendations (concat found)) r :: tail'
    /\ forall resources,
         r = Ok (DResources resources) ->
         exists r',
           tail' = [Called (setRecommendationStatus (map entry_of resources)
                              "markSucceeded") r']
           /\ (r' = Ok DNone ->
               received (run_ci req w) = Some (201, "Created")).
Proof.
  intros Hfound Htrace.
  destruct (ci_after_fulfilled_lookups req w fullRepoName commitID repoName
              commits found tail Hfound Htrace)
    as (r & tail' & Htail & Hnext).
  exists r, tail'. split; [exact Htail|].
  intros resources Hr. destruct (Hnext resources Hr) as (r' & Hlast & Hok).
  exists r'. split; [exact Hlast|]. intro Hr'. now apply Hok.
Qed.

(** C6, as the code has it. A payload that is not [null], whose [status]
    compares unequal to 'SUCCESS', or compares equal while
    [substitutions] is absent or otherwise falsy, is acknowledged with
    200 "OK" and no collaborator is called. *)
Theorem non_actionable_event_is_ignored (req : CiRequest) (w : W)
    (payload : Json) :
  JSON_parse_base64 (message_data req) = Ok payload ->
  payload <> JNull ->
  eq_SUCCESS (field (Some payload) "status") = Ok false
  \/ (eq_SUCCESS (field (Some payload) "status") = Ok true
      /\ truthy (field (Some payload) "substitutions") = false) ->
  trace (run_ci req w) = []
  /\ received (run_ci req w) = Some (200, "OK")
  /\ outcome (run_ci req w) = Ok tt.
Proof.
  intros Hparse Hnull Hignored.
  unfold serve, received, ci. rewrite Hparse. cbn [settle bind].
  rewrite !(member_field payload _ Hnull). cbn [settle bind].
  destruct Hignored as [Hs | [Hs Ht]]; rewrite Hs; cbn [settle bind].
  - cbn. repeat split; reflexivity.
  - rewrite Ht. cbn. repeat split; reflexivity.
Qed.

(** C10. After an ancestry call and lookups that were all fulfilled with
    the empty list, the handler asks for fresh tokens for the empty list
    of IDs; when the recommender answers with no resources it calls the
    status change with the empty list, and when that is accepted the
    client receives 201 "Created" and the handler's promise is
    fulfilled. *)
Theorem empty_index_still_succeeds (req : CiRequest) (w : W)
    (fullRepoName : string) (commitID repoName : Value)
    (commits : list string) (tail : list Entry) :
  trace (run_ci req w)
  = (Called (getParentCommits fullRepoName commitID) (Ok (DStrings commits))
     :: map (fun c => Called (getCommit repoName c) (Ok (DStrings [])))
          commits
     ++ tail)%list ->
  exists r tail',
    tail = Called (getRecommendations []) r :: tail'
    /\ (r = Ok (DResources []) ->
        exists r',
          tail' = [Called (setRecommendationStatus [] "markSucceeded") r']
          /\ (r' = Ok DNone ->
              received (run_ci req w) = Some (201, "Created")
              /\ outcome (run_ci req w) = Ok tt)).
Proof.
  intro Htrace. rewrite lookups_found_nothing in Htrace.
  destruct (ci_after_fulfilled_lookups req w fullRepoName commitID repoName
              commits (map (fun _ => []) commits) tail
              (length_map _ _) Htrace)
    as (r & tail' & Htail & Hnext).
  rewrite concat_map_nil in Htail.
  exists r, tail'. split; [exact Htail|].
  intro Hr. exact (Hnext [] Hr).
Qed.

(** A [null] payload is not ignored: reading its [status] throws inside
    the [try], and the client receives 500 with the TypeError's text. *)
Lemma null_payload_is_an_error (req : CiRequest) (w : W) :
  JSON_parse_base64 (message_data req) = Ok JNull ->
  trace (run_ci req w) = []
  /\ received (run_ci req w)
     = Some (500, toString (cannot_read "null" "status")).
Proof.
  intro Hparse. unfold serve, received, ci. rewrite Hparse.
  split; reflexivity.
Qed.

(** A failure of the ancestry call is caught: the client receives 500 with
    the error's text, and nothing further is called. *)
Lemma ancestry_failure_is_reported (req : CiRequest) (w : W)
    (payload : Json) (repoNameText : string) (e : Error) :
  let substitutions := field (Some payload) "substitutions" in
  let commitID := field substitutions "COMMIT_SHA" in
  let repoName := field substitutions "REPO_NAME" in
  let fullRepoName := base_repo_text BASE_REPO ++ "/" ++ repoNameText in
  JSON_parse_base64 (message_data req) = Ok payload ->
  eq_SUCCESS (field (Some payload) "status") = Ok true ->
  truthy substitutions = true ->
  valueToString repoName = Ok repoNameText ->
  fst (handle (getParentCommits fullRepoName commitID) w) = Err e ->
  calls (trace (run_ci req w)) = [getParentCommits fullRepoName commitID]
  /\ received (run_ci req w) = Some (500, toString e).
Proof.
  intros substitutions commitID repoName fullRepoName
    Hparse Hstatus Htruthy Htext Hparents.
  unfold serve, received, ci. rewrite Hparse. cbn [settle bind].
  pose proof (eq_SUCCESS_field_truthy payload Hstatus) as Hpayload.
  rewrite (truthy_member _ "status" Hpayload). cbn [settle bind].
  rewrite Hstatus. cbn [settle bind].
  rewrite (truthy_member _ "substitutions" Hpayload). cbn [settle bind].
  fold substitutions. rewrite Htruthy.
  rewrite !(truthy_member substitutions _ Htruthy). cbn [settle bind].
  fold commitID repoName. rewrite Htext. cbn [settle bind].
  fold fullRepoName.
  cbn [await bind try_catch exec].
  destruct (handle (getParentCommits fullRepoName commitID) w) as [x w1].
  cbn in Hparents; subst x. cbn. split; reflexivity.
Qed.

(** A payload that cannot be decoded: [JSON.parse] throws before the
    [try], so the handler's promise is rejected with the SyntaxError and
    the handler sends nothing. *)
Lemma undecodable_event_is_unanswered (req : CiRequest) (w : W)
    (e : Error) :
  JSON_parse_base64 (message_data req) = Err e ->
  trace (run_ci req w) = []
  /\ received (run_ci req w) = None
  /\ outcome (run_ci req w) = Err e.
Proof.
  intro Hparse. unfold serve, received, ci. rewrite Hparse.
  repeat split; reflexivity.
Qed.

End Reconcile.
(** ** The handlers on the sample worlds *)

Lemma unsupported_category_calls_nothing_witness :
  trace (sample_apply happy db_request) = []
  /\ received (sample_apply happy db_request)
     = Some (500, "Unknown operation").
Proof.
  apply (unsupported_category_calls_nothing account sample_upper unit (scripted happy)
           wall_clock in_order db_request tt); cbn; discriminate.
Defined.

(** After the response has been sent the handler still runs on: the call
    of the unbound [listRecommendationsFn] throws, and the second response
    attempted in the [catch] throws in turn, so the handler's promise is
    rejected. *)
Lemma unsupported_category_falls_through :
  outcome (sample_apply happy db_request) = Err Express.headers_sent.
Proof. reflexivity. Qed.

(** A category written with a dotless i is supported: upper-casing turns
    it into "IAM", and the IAM workflow runs. *)
Lemma dotless_i_spells_IAM :
  toUpperCase sample_upper (dotless_i ++ "am") = "IAM"
  /\ received
       (sample_apply happy (mkApplyRequest (dotless_i ++ "am") "infra" []))
     = Some (201, "Created").
Proof. split; reflexivity. Qed.

Lemma empty_listing_is_a_noop_witness :
  received (sample_apply nothing_listed vm_request)
  = Some (200, "Nothing to apply").
Proof.
  apply (empty_listing_is_a_noop account sample_upper unit (scripted nothing_listed)
           wall_clock in_order vm_request tt listVMResizeRecommendations
           ["project-a"; "project-b"] []).
  reflexivity.
Defined.

Lemma empty_claim_is_a_noop_witness :
  received (sample_apply nothing_staged vm_request) = Some (201, "Created").
Proof.
  apply (empty_claim_is_a_noop account sample_upper unit (scripted nothing_staged)
           wall_clock in_order vm_request tt applyVMResizeRecommendations "infra"
           [r1; r2]
           [Called (recommender_list listVMResizeRecommendations
                      ["project-a"; "project-b"])
              (Ok (DRecommendations [r1; r2]));
            Called (cloneRepository "git@github.com:acme/infra.git" "infra")
              (Ok DNone)]
           []).
  reflexivity.
Defined.

Lemma record_persisted_before_claim_witness :
  exists (commitMessage : string) (commit' : Commit) (before : list Entry),
    In (Called (commitChanges commitMessage "infra") (Ok (DCommit commit')))
      before
    /\ before_claim
       = (before ++
          [Called (createCommit "infra" (commit commit') [r1; r2])
             (Ok DNone)])%list.
Proof.
  apply (record_persisted_before_claim account sample_upper unit (scripted happy)
           wall_clock in_order vm_request tt [r1; r2] (Ok DNone) before_claim []).
  reflexivity.
Defined.

Lemma commit_message_names_category_witness :
  exists (now : string) (before : list Entry),
    before_commit = (before ++ [Clock now])%list
    /\ includes sample_commit_message now = true
    /\ ((toUpperCase sample_upper "vm" = "VM"
         /\ includes sample_commit_message "VM Rightsizing" = true)
        \/ (toUpperCase sample_upper "vm" = "IAM"
            /\ includes sample_commit_message "IAM Updates" = true)).
Proof.
  apply (commit_message_names_category account sample_upper unit (scripted happy)
           wall_clock in_order vm_request tt sample_commit_message "infra"
           (Ok (DCommit sample_commit)) before_commit
           [Called (createPullRequest "git@github.com:acme/infra.git"
                      "recommendations-1" sample_commit_message)
              (Ok DNone);
            Called (createCommit "infra" "4f2a9c1" [r1; r2]) (Ok DNone);
            Called (setRecommendationStatus [r1; r2] "markClaimed")
              (Ok DNone)]).
  reflexivity.
Defined.

Lemma category_is_case_insensitive_witness :
  applyRecommendations account sample_upper
    (mkApplyRequest "Vm" "infra" ["project-a"])
  = applyRecommendations account sample_upper
    (mkApplyRequest "VM" "infra" ["project-a"]).
Proof.
  apply (category_is_case_insensitive account sample_upper "VM" "Vm"
           "infra"
           ["project-a"]).
  reflexivity.
Defined.

Example lower_case_iam :
  spells "IAM" "iam" = true /\ spells "VM" "vm" = true
  /\ spells "VM" "vM" = true /\ spells "VM" "vn" = false.
Proof. repeat split; reflexivity. Qed.

(** C2, as the claim states it, fails: with c1 -> r1, r2 and c2 -> r2, r3
    in the index and a recommender that returns one resource per requested
    ID, r2 is requested twice and passed to the status change twice. *)
Lemma overlapping_ids_are_marked_twice :
  exists recommendations : list Recommendation,
    calls (trace (sample_ci happy success_event))
    = [getParentCommits "github.com:acme/infra" (Some (JStr "c"));
       getCommit (Some (JStr "infra")) "c1";
       getCommit (Some (JStr "infra")) "c2";
       getRecommendations ["r1"; "r2"; "r2"; "r3"];
       setRecommendationStatus recommendations "markSucceeded"]
    /\ map id recommendations = ["r1"; "r2"; "r2"; "r3"]
    /\ ~ NoDup (map id recommendations).
Proof.
  eexists. split; [reflexivity|]. split; [reflexivity|].
  cbn. intro H.
  inversion H as [|? ? _ H1]; subst.
  inversion H1 as [|? ? Hin _]; subst.
  apply Hin. now left.
Qed.

Lemma reconciliation_marks_concatenation_witness :
  exists r tail',
    [Called (getRecommendations ["r1"; "r2"; "r2"; "r3"])
       (Ok (DResources (map fresh_token ["r1"; "r2"; "r2"; "r3"])));
     Called (setRecommendationStatus
               (map entry_of (map fresh_token ["r1"; "r2"; "r2"; "r3"]))
               "markSucceeded") (Ok DNone)]
    = Called (getRecommendations (concat [["r1"; "r2"]; ["r2"; "r3"]])) r
      :: tail'
    /\ forall resources,
         r = Ok (DResources resources) ->
         exists r',
           tail' = [Called (setRecommendationStatus (map entry_of resources)
                              "markSucceeded") r']
           /\ (r' = Ok DNone ->
               received (sample_ci happy success_event)
               = Some (201, "Created")).
Proof.
  apply (reconciliation_marks_concatenation account sample_parse unit
           (scripted happy) wall_clock in_order success_event tt
           "github.com:acme/infra" (Some (JStr "c")) (Some (JStr "infra"))
           ["c1"; "c2"] [["r1"; "r2"]; ["r2"; "r3"]]);
    reflexivity.
Defined.

(** C6, as the claim states it, fails: a successful build whose
    [substitutions] object is empty carries neither [COMMIT_SHA] nor
    [REPO_NAME], and yet it is processed; the ancestry of commit
    [undefined] in "<account>/undefined" is requested and, every call
    being fulfilled, the client receives 201 "Created". *)
Lemma empty_substitutions_are_processed :
  edge_parse (message_data bare_event) = Ok bare_payload
  /\ field (field (Some bare_payload) "substitutions") "COMMIT_SHA" = None
  /\ field (field (Some bare_payload) "substitutions") "REPO_NAME" = None
  /\ calls (trace (edge_ci happy bare_event))
     = [getParentCommits "github.com:acme/undefined" None;
        getCommit None "c1";
        getCommit None "c2";
        getRecommendations ["r1"; "r2"; "r2"; "r3"];
        setRecommendationStatus
          (map entry_of (map fresh_token ["r1"; "r2"; "r2"; "r3"]))
          "markSucceeded"]
  /\ received (edge_ci happy bare_event) = Some (201, "Created")
  /\ received (edge_ci happy bare_event) <> Some (200, "OK").
Proof.
  repeat split; try reflexivity. cbn. discriminate.
Qed.

Lemma non_actionable_event_is_ignored_witness :
  trace (sample_ci happy failure_event) = []
  /\ received (sample_ci happy failure_event) = Some (200, "OK")
  /\ outcome (sample_ci happy failure_event) = Ok tt.
Proof.
  apply (non_actionable_event_is_ignored account sample_parse unit
           (scripted happy) wall_clock in_order failure_event tt failure_payload).
  - reflexivity.
  - discriminate.
  - left. reflexivity.
Defined.

Lemma empty_index_still_succeeds_witness :
  exists r tail',
    [Called (getRecommendations []) (Ok (DResources []));
     Called (setRecommendationStatus [] "markSucceeded") (Ok DNone)]
    = Called (getRecommendations []) r :: tail'
    /\ (r = Ok (DResources []) ->
        exists r',
          tail' = [Called (setRecommendationStatus [] "markSucceeded") r']
          /\ (r' = Ok DNone ->
              received (sample_ci nothing_indexed success_event)
              = Some (201, "Created")
              /\ outcome (sample_ci nothing_indexed success_event) = Ok tt)).
Proof.
  apply (empty_index_still_succeeds account sample_parse unit
           (scripted nothing_indexed) wall_clock in_order success_event tt
           "github.com:acme/infra" (Some (JStr "c")) (Some (JStr "infra"))
           ["c1"; "c2"]).
  reflexivity.
Defined.

(** C7 fails on the code.  When the listing is rejected with
    "Error: quota exceeded" the Apply handler answers 500 with the body
    "Internal Server Error": [sendStatus] has sent and ended the response
    before [end] is given the error's text.  When the payload of a build
    event cannot be decoded the reconciliation handler sends nothing:
    [JSON.parse] is called before the [try]. *)
Theorem failure_text_is_lost :
  (calls (trace (sample_apply listing_fails vm_request))
   = [recommender_list listVMResizeRecommendations ["project-a"; "project-b"]]
   /\ toString quota_exceeded = "Error: quota exceeded"
   /\ received (sample_apply listing_fails vm_request)
      = Some (500, "Internal Server Error")
   /\ includes "Internal Server Error" (toString quota_exceeded) = false)
  /\ (received (sample_ci happy garbled_event) = None
      /\ outcome (sample_ci happy garbled_event) = Err unexpected_token).
Proof. repeat split; reflexivity. Qed.

(** ** More on the Apply Workflow *)

Section ApplySteps.

Variable BASE_REPO : option string.
Variable unicodeUpper : string -> string.
Variable W : Type.
Variable handle : forall c : Call, W -> result (Payload c) * W.
Variable clock : W -> string * W.
Variable earliest : W -> nat * W.

Local Abbreviation run_apply req w :=
  (serve W handle clock earliest
     (applyRecommendations BASE_REPO unicodeUpper req) w).

(** Answer the next pending call or clock reading; a list of
    recommendations is split into empty and non-empty. *)
Ltac answer :=
  match goal with
  | |- context [handle (recommender_list ?f ?p) ?w] =>
      destruct (handle (recommender_list f p) w) as [[[|? ?] | ?] ?]
  | |- context [handle (terraform_apply ?f ?n ?l) ?w] =>
      destruct (handle (terraform_apply f n l) w) as [[[|? ?] | ?] ?]
  | |- context [handle ?c ?w] =>
      destruct (handle c w) as [[? | ?] ?]
  | |- context [clock ?w] =>
      destruct (clock w) as [? ?]
  end; cbn.

Ltac locate H :=
  first
    [ apply split_nil in H; contradiction
    | apply split_cons in H;
      let pre' := fresh "pre" in
      destruct H as [(-> & H & <-) | (pre' & -> & H)];
      [ try discriminate H | locate H ] ].

(** X1. The applier is only ever called after a fulfilled, non-empty
    listing by the function of the same category, made with the request's
    project IDs, and a fulfilled clone of [git@<account>/<repo>.git] into
    the repository's name; it is given the request's repository name and
    exactly the recommendations listed. *)
Theorem applier_follows_listing_and_clone (req : ApplyRequest) (w : W)
    (fn : ApplyFn) (repoName : string) (recommendations : list Recommendation)
    (r : result Data) (pre post : list Entry) :
  trace (run_apply req w)
  = (pre ++ Called (terraform_apply fn repoName recommendations) r
         :: post)%list ->
  repoName = body_repo req
  /\ recommendations <> []
  /\ apply_category fn = toUpperCase unicodeUpper (params_type req)
  /\ exists fn0 : ListFn,
       list_category fn0 = toUpperCase unicodeUpper (params_type req)
       /\ pre = [Called (recommender_list fn0 (body_projects req))
                   (Ok (DRecommendations recommendations));
                 Called (cloneRepository (remote BASE_REPO repoName) repoName)
                   (Ok DNone)].
Proof.
  unfold serve, applyRecommendations.
  destruct (String.eqb_spec (toUpperCase unicodeUpper (params_type req)) "VM") as [Hvm|_];
    [| destruct (String.eqb_spec (toUpperCase unicodeUpper (params_type req)) "IAM")
         as [Hiam|_]];
    cbn.
  3: { intro H. locate H. }
  all: repeat answer; intro H; locate H.
  all: injection H as <- <- <- _.
  all: repeat split; try discriminate; try (symmetry; assumption).
  all: eexists; split; [| reflexivity]; symmetry; assumption.
Qed.

(** X2. Once the applier has staged a non-empty subset, and as long as no
    later call is rejected, the handler reads the clock, commits with the
    category's message, requests a review of the commit's branch with that
    message as title, records the commit with the staged subset, and
    claims exactly that subset, in this order; the client then receives
    201 "Created". *)
Theorem staged_subset_is_committed_then_claimed (req : ApplyRequest) (w : W)
    (fn : ApplyFn) (repoName : string)
    (recommendations claimed : list Recommendation)
    (pre post : list Entry) :
  trace (run_apply req w)
  = (pre ++ Called (terraform_apply fn repoName recommendations)
              (Ok (DRecommendations claimed)) :: post)%list ->
  claimed <> [] ->
  first_rejection post = None ->
  (exists (now : string) (commit' : Commit),
     post = [Clock now;
             Called (commitChanges (message_for fn now) repoName)
               (Ok (DCommit commit'));
             Called (createPullRequest (remote BASE_REPO repoName)
                       (branch commit') (message_for fn now))
               (Ok DNone);
             Called (createCommit repoName (commit commit') claimed)
               (Ok DNone);
             Called (setRecommendationStatus claimed "markClaimed")
               (Ok DNone)])
  /\ received (run_apply req w) = Some (201, "Created").
Proof.
  unfold serve, received, applyRecommendations.
  destruct (String.eqb_spec (toUpperCase unicodeUpper (params_type req)) "VM") as [Hvm|_];
    [| destruct (String.eqb_spec (toUpperCase unicodeUpper (params_type req)) "IAM")
         as [Hiam|_]];
    cbn.
  3: { intro H. locate H. }
  all: repeat answer; intro H; locate H.
  all: injection H as <- <- <- <-; intros Hclaimed Hfulfilled.
  all: try (now destruct Hclaimed); try discriminate Hfulfilled.
  all: split; [eexists _, _; reflexivity | reflexivity].
Qed.

(** X3. For a supported category the handler's promise is always
    fulfilled and the client always receives an answer, one of
    200 "Nothing to apply", 201 "Created" and 500 "Internal Server Error";
    the first call is the listing of that category with the request's
    project IDs. *)
Theorem supported_category_is_always_answered (req : ApplyRequest) (w : W) :
  toUpperCase unicodeUpper (params_type req) = "VM"
  \/ toUpperCase unicodeUpper (params_type req) = "IAM" ->
  outcome (run_apply req w) = Ok tt
  /\ (received (run_apply req w) = Some (200, "Nothing to apply")
      \/ received (run_apply req w) = Some (201, "Created")
      \/ received (run_apply req w) = Some (500, "Internal Server Error"))
  /\ exists (fn : ListFn) (r : result Data) (rest : list Entry),
       list_category fn = toUpperCase unicodeUpper (params_type req)
       /\ trace (run_apply req w)
          = Called (recommender_list fn (body_projects req)) r :: rest.
Proof.
  unfold serve, received, applyRecommendations.
  intros [Hvm | Hiam]; [rewrite Hvm | rewrite Hiam]; cbn.
  all: repeat answer.
  all: split; [reflexivity|]; split; [auto|].
  all: eexists _, _, _; split; [| reflexivity].
  all: reflexivity.
Qed.

(** X4. For an unsupported category the handler's promise is rejected:
    after the 500 "Unknown operation" response the handler runs on, throws
    on the unbound listing function, and the second response attempted in
    the [catch] throws ERR_HTTP_HEADERS_SENT, which nothing catches. *)
Theorem unsupported_category_rejects_promise (req : ApplyRequest) (w : W) :
  toUpperCase unicodeUpper (params_type req) <> "VM" ->
  toUpperCase unicodeUpper (params_type req) <> "IAM" ->
  outcome (run_apply req w) = Err Express.headers_sent.
Proof.
  intros Hvm Hiam.
  apply String.eqb_neq in Hvm, Hiam.
  unfold serve, applyRecommendations.
  rewrite Hvm, Hiam. reflexivity.
Qed.

(** X5. A rejected collaborator call is the last entry of the run: no
    later step is attempted and nothing done before it is undone; the
    client receives 500 "Internal Server Error". *)
Theorem rejected_call_ends_apply_run (req : ApplyRequest) (w : W)
    (c : Call) (e : Error) (pre post : list Entry) :
  trace (run_apply req w) = (pre ++ Called c (Err e) :: post)%list ->
  post = []
  /\ received (run_apply req w) = Some (500, "Internal Server Error")
  /\ outcome (run_apply req w) = Ok tt.
Proof.
  unfold serve, received, applyRecommendations.
  destruct (String.eqb (toUpperCase unicodeUpper (params_type req)) "VM");
    [| destruct (String.eqb (toUpperCase unicodeUpper (params_type req)) "IAM")];
    cbn.
  3: { intro H. locate H. }
  all: repeat answer; intro H; locate H.
  all: injection H as _ _; repeat split; reflexivity.
Qed.

(** X6. For a supported category, 500 is sent only when a collaborator
    call was rejected: the run then ends with that call. *)
Theorem server_error_means_rejected_call (req : ApplyRequest) (w : W) :
  toUpperCase unicodeUpper (params_type req) = "VM"
  \/ toUpperCase unicodeUpper (params_type req) = "IAM" ->
  received (run_apply req w) = Some (500, "Internal Server Error") ->
  exists (pre : list Entry) (c : Call) (e : Error),
    trace (run_apply req w) = (pre ++ [Called c (Err e)])%list.
Proof.
  unfold serve, received, applyRecommendations.
  intros [Hvm | Hiam]; [rewrite Hvm | rewrite Hiam]; cbn.
  all: repeat answer; intro H; try discriminate H.
  all: first
         [ now eexists [], _, _
         | now eexists [_], _, _
         | now eexists [_; _], _, _
         | now eexists [_; _; _], _, _
         | now eexists [_; _; _; _], _, _
         | now eexists [_; _; _; _; _], _, _
         | now eexists [_; _; _; _; _; _], _, _
         | now eexists [_; _; _; _; _; _; _], _, _ ].
Qed.

End ApplySteps.

(** ** More on build reconciliation *)

(** The only error a conversion to string throws. *)
Lemma jsonToString_error :
  forall (j : Json) (e : Error), jsonToString j = Err e -> e = cannot_convert.
Proof.
  fix IH 1. intros j e.
  destruct j as [| [|] | repr | s | items | props]; cbn [jsonToString];
    try discriminate.
  - revert e. induction items as [|x rest IHrest]; intro e;
      [discriminate|].
    pose proof (IH x) as IHx.
    assert (Hx : forall e', joinItem jsonToString x = Err e'
                            -> e' = cannot_convert).
    { intros e' He'. destruct x; try discriminate He'; exact (IHx _ He'). }
    clear IHx.
    destruct rest as [|y rest']; [exact (Hx e)|].
    change (join jsonToString (x :: y :: rest'))
      with (match joinItem jsonToString x with
            | Err e => Err e
            | Ok first =>
                match join jsonToString (y :: rest') with
                | Err e => Err e
                | Ok others => Ok (first ++ "," ++ others)
                end
            end).
    destruct (joinItem jsonToString x) as [first | e0];
      [| intro H; injection H as <-; exact (Hx e0 eq_refl)].
    destruct (join jsonToString (y :: rest')) as [others | e1];
      [discriminate|].
    intro H. injection H as <-. exact (IHrest e1 eq_refl).
  - destruct (has_own "toString" props); [|discriminate].
    intro H. now injection H as <-.
Qed.

Lemma valueToString_error (v : Value) (e : Error) :
  valueToString v = Err e -> e = cannot_convert.
Proof.
  destruct v as [j|]; cbn; [apply jsonToString_error | discriminate].
Qed.

Lemma eq_SUCCESS_error (v : Value) (e : Error) :
  eq_SUCCESS v = Err e -> e = cannot_convert.
Proof.
  destruct v as [[| b | repr | s | items | props]|]; cbn [eq_SUCCESS];
    try discriminate.
  - destruct (jsonToString (JArr items)) as [t | e'] eqn:H; [discriminate|].
    intro He. injection He as <-. exact (jsonToString_error _ _ H).
  - destruct (jsonToString (JObj props)) as [t | e'] eqn:H; [discriminate|].
    intro He. injection He as <-. exact (jsonToString_error _ _ H).
Qed.

Section ReconcileSteps.

Variable BASE_REPO : option string.
Variable JSON_parse_base64 : string -> result Json.
Variable W : Type.
Variable handle : forall c : Call, W -> result (Payload c) * W.
Variable clock : W -> string * W.
Variable earliest : W -> nat * W.

Local Abbreviation run_ci req w :=
  (serve W handle clock earliest (ci BASE_REPO JSON_parse_base64 req) w).

Local Abbreviation shape req w payload :=
  (ci_actionable_shape BASE_REPO JSON_parse_base64 W handle clock earliest
     req w payload).

Local Abbreviation quiet_or_actionable req w :=
  (ci_quiet_or_actionable BASE_REPO JSON_parse_base64 W handle clock earliest
     req w).

Ltac locate H :=
  first
    [ apply split_nil in H; contradiction
    | apply split_cons in H;
      let pre' := fresh "pre" in
      destruct H as [(-> & H & <-) | (pre' & -> & H)];
      [ try discriminate H | locate H ] ].

(** X7. Once the payload is decoded and is not [null], the handler's
    promise is always fulfilled and the client always answered: with
    200 "OK" and no call made; or with 500 and the TypeError's text, no
    call made, when converting [status] or [REPO_NAME] throws; or with
    201 "Created" and no call rejected; or with 500 and the text of a
    rejected call of the run. *)
Theorem decoded_event_is_always_answered (req : CiRequest) (w : W)
    (payload : Json) :
  JSON_parse_base64 (message_data req) = Ok payload ->
  payload <> JNull ->
  outcome (run_ci req w) = Ok tt
  /\ ((trace (run_ci req w) = []
       /\ received (run_ci req w) = Some (200, "OK"))
      \/ (trace (run_ci req w) = []
          /\ received (run_ci req w) = Some (500, toString cannot_convert))
      \/ (first_rejection (trace (run_ci req w)) = None
          /\ received (run_ci req w) = Some (201, "Created"))
      \/ exists c e,
           In (Called c (Err e)) (trace (run_ci req w))
           /\ received (run_ci req w) = Some (500, toString e)).
Proof.
  intros Hparse Hnull.
  destruct (eq_SUCCESS (field (Some payload) "status"))
    as [[|] | e0] eqn:Hstatus;
    [destruct (truthy (field (Some payload) "substitutions")) eqn:Htruthy| |].
  - destruct (shape req w payload Hparse Hstatus Htruthy)
      as (Hout &
          [(e & Hconv & -> & Hrec)
          | (text & _ &
             [(e & -> & Hrec)
             | (commits & answers & Hlen &
                [(e & Hnone & Hin & -> & Hrec)
                | (lists & Hall &
                   [(e & -> & Hrec) | (resources & r & -> & Hr)])])])]);
      (split; [exact Hout|]).
    + right; left. split; [reflexivity|].
      now rewrite <- (valueToString_error _ _ Hconv).
    + right; right; right. eexists _, e. split; [now left | exact Hrec].
    + right; right; right.
      destruct (rejection_in_lookups
                  (field (field (Some payload) "substitutions") "REPO_NAME")
                  commits answers e Hlen Hin) as (c & Hc).
      eexists _, e. split; [right; exact Hc | exact Hrec].
    + right; right; right. eexists _, e. split; [| exact Hrec].
      right. apply in_or_app. right. now left.
    + destruct r as [d | e].
      * right; right; left. destruct Hr as [-> Hrec]. split; [| exact Hrec].
        cbn [first_rejection]. rewrite first_rejection_app.
        rewrite (first_rejection_lookups _ _ _ Hlen).
        apply fulfilled_spec in Hall. subst answers.
        now rewrite rejections_fulfilled.
      * right; right; right. eexists _, e. split; [| exact Hr].
        right. apply in_or_app. right. right. now left.
  - unfold serve, received, ci. rewrite Hparse. cbn [settle bind].
    rewrite !(member_field payload _ Hnull). cbn [settle bind].
    rewrite Hstatus. cbn [settle bind]. rewrite Htruthy. cbn. auto.
  - unfold serve, received, ci. rewrite Hparse. cbn [settle bind].
    rewrite !(member_field payload _ Hnull). cbn [settle bind].
    rewrite Hstatus. cbn. auto.
  - unfold serve, received, ci. rewrite Hparse. cbn [settle bind].
    rewrite !(member_field payload _ Hnull). cbn [settle bind].
    rewrite Hstatus. rewrite (eq_SUCCESS_error _ _ Hstatus). cbn. auto.
Qed.

(** X8. On an actionable event whose ancestry call is fulfilled, every
    ancestor is looked up, once and in the order returned, under the
    payload's repository name, whatever the lookups answer.  When a lookup
    is rejected nothing is called after the lookups; otherwise the next
    call asks for fresh tokens for the concatenation of the lists found. *)
Theorem every_ancestor_is_looked_up (req : CiRequest) (w : W)
    (payload : Json) (fullRepoName : string) (commits : list string)
    (rest : list Entry) :
  let substitutions := field (Some payload) "substitutions" in
  let commitID := field substitutions "COMMIT_SHA" in
  let repoName := field substitutions "REPO_NAME" in
  JSON_parse_base64 (message_data req) = Ok payload ->
  eq_SUCCESS (field (Some payload) "status") = Ok true ->
  truthy substitutions = true ->
  trace (run_ci req w)
  = Called (getParentCommits fullRepoName commitID) (Ok (DStrings commits))
    :: rest ->
  exists (answers : list (result (list string))) (tail : list Entry),
    length answers = length commits
    /\ rest = (lookup_entries repoName commits answers ++ tail)%list
    /\ match fulfilled answers with
       | None => tail = []
       | Some lists =>
           exists r tail',
             tail = Called (getRecommendations (concat lists)) r :: tail'
       end.
Proof.
  intros substitutions commitID repoName Hparse Hstatus Htruthy.
  destruct (shape req w payload Hparse Hstatus Htruthy)
    as (_ &
        [(e & _ & -> & _)
        | (text & _ &
           [(e & -> & _)
           | (commits' & answers & Hlen &
              [(e & Hnone & _ & -> & _)
              | (lists & Hall &
                 [(e & -> & _) | (resources & r & -> & _)])])])]);
    intro H; try discriminate H; injection H as _ <- <-.
  - exists answers, []. rewrite Hnone, app_nil_r. auto.
  - eexists answers, _. rewrite Hall. repeat split; eauto.
  - eexists answers, _. rewrite Hall. repeat split; eauto.
Qed.

(** X9. A status change is always to SUCCEEDED, is the last call of the
    run, and carries exactly the names and etags of the resources that
    the token refresh just before it returned. *)
Theorem status_change_uses_refreshed_tokens (req : CiRequest) (w : W)
    (recommendations : list Recommendation) (action : string)
    (r : result Data) (pre post : list Entry) :
  trace (run_ci req w)
  = (pre ++ Called (setRecommendationStatus recommendations action) r
         :: post)%list ->
  action = "markSucceeded"
  /\ post = []
  /\ exists before recommendationIDs resources,
       pre = (before ++ [Called (getRecommendations recommendationIDs)
                           (Ok (DResources resources))])%list
       /\ recommendations = map entry_of resources.
Proof.
  destruct (quiet_or_actionable req w)
    as [-> | (payload & Hparse & Hstatus & Htruthy)];
    [intro H; now apply split_nil in H|].
  destruct (shape req w payload Hparse Hstatus Htruthy)
    as (_ &
        [(e & _ & -> & _)
        | (text & _ &
           [(e & -> & _)
           | (commits & answers & Hlen &
              [(e & Hnone & _ & -> & _)
              | (lists & Hall &
                 [(e & -> & _) | (resources & r' & -> & _)])])])]);
    intro H.
  - now apply split_nil in H.
  - locate H.
  - rewrite <- (app_nil_r (lookup_entries _ _ _)) in H. symmetry in H.
    apply (split_past (_ :: _)) in H.
    + destruct H as (pre' & _ & H). symmetry in H. now apply split_nil in H.
    + intros [Hin | Hin]; [discriminate Hin|].
      apply lookup_in in Hin. destruct Hin as (c & a & Hin). discriminate Hin.
  - symmetry in H. apply (split_past (_ :: _)) in H.
    + destruct H as (pre' & _ & H). symmetry in H. locate H.
    + intros [Hin | Hin]; [discriminate Hin|].
      apply lookup_in in Hin. destruct Hin as (c & a & Hin). discriminate Hin.
  - symmetry in H. apply (split_past (_ :: _)) in H.
    + destruct H as (pre' & -> & H). symmetry in H. locate H.
      injection H as <- <- _. repeat split.
      eexists (_ :: _), _, _. split; [| reflexivity].
      cbn. reflexivity.
    + intros [Hin | Hin]; [discriminate Hin|].
      apply lookup_in in Hin. destruct Hin as (c & a & Hin). discriminate Hin.
Qed.

(** X10. After a rejected call the handler starts nothing new: the only
    calls that follow are lookups, which were started together with the
    rejected one, and a rejected call that is not a lookup is the last
    call of the run. *)
Theorem rejection_stops_reconciliation (req : CiRequest) (w : W)
    (c : Call) (e : Error) (pre post : list Entry) :
  trace (run_ci req w) = (pre ++ Called c (Err e) :: post)%list ->
  forallb is_lookup (calls post) = true
  /\ (is_lookup c = false -> post = []).
Proof.
  destruct (quiet_or_actionable req w)
    as [-> | (payload & Hparse & Hstatus & Htruthy)];
    [intro H; now apply split_nil in H|].
  destruct (shape req w payload Hparse Hstatus Htruthy)
    as (_ &
        [(e0 & _ & -> & _)
        | (text & _ &
           [(e0 & -> & _)
           | (commits & answers & Hlen &
              [(e0 & Hnone & _ & -> & _)
              | (lists & Hall &
                 [(e0 & -> & _) | (resources & r' & -> & _)])])])]);
    intro H.
  - now apply split_nil in H.
  - locate H. now split.
  - apply split_cons in H.
    destruct H as [(_ & H & _) | (pre' & -> & H)]; [discriminate H|].
    pose proof (lookups_are_lookups
                  (field (field (Some payload) "substitutions") "REPO_NAME")
                  commits answers) as Hl.
    rewrite H in Hl. split.
    + exact (forallb_calls_suffix _ _ _ _ Hl).
    + intro Hc. apply forallb_calls_mid in Hl. congruence.
  - symmetry in H. apply (split_past (_ :: _)) in H.
    + destruct H as (pre' & _ & H). symmetry in H. locate H. now split.
    + intros [Hin | Hin]; [discriminate Hin|].
      destruct (fulfilled_lookup_in _ _ _ _ _ Hall Hin) as (c' & ids & Hx).
      discriminate Hx.
  - symmetry in H. apply (split_past (_ :: _)) in H.
    + destruct H as (pre' & _ & H). symmetry in H. locate H. now split.
    + intros [Hin | Hin]; [discriminate Hin|].
      destruct (fulfilled_lookup_in _ _ _ _ _ Hall Hin) as (c' & ids & Hx).
      discriminate Hx.
Qed.

(** X11. The presence of [COMMIT_SHA] and [REPO_NAME] is not checked: an
    event with status 'SUCCESS' whose [substitutions] is truthy and lacks
    both keys is processed, and the ancestry call is made for the
    repository "<account>/undefined" and the commit [undefined]. *)
Theorem missing_correlation_keys_are_not_checked (req : CiRequest) (w : W)
    (payload : Json) :
  let substitutions := field (Some payload) "substitutions" in
  JSON_parse_base64 (message_data req) = Ok payload ->
  eq_SUCCESS (field (Some payload) "status") = Ok true ->
  truthy substitutions = true ->
  field substitutions "COMMIT_SHA" = None ->
  field substitutions "REPO_NAME" = None ->
  exists (r : result Data) (rest : list Entry),
    trace (run_ci req w)
    = Called (getParentCommits (base_repo_text BASE_REPO ++ "/undefined")
                None) r :: rest.
Proof.
  intros substitutions Hparse Hstatus Htruthy Hsha Hrepo.
  pose proof (shape req w payload Hparse Hstatus Htruthy) as Hshape.
  cbn zeta in Hshape. fold substitutions in Hshape.
  rewrite Hsha, Hrepo in Hshape. cbn [valueToString] in Hshape.
  destruct Hshape
    as (_ &
        [(e & Hconv & _)
        | (text & Hconv &
           [(e & -> & _)
           | (commits & answers & Hlen &
              [(e & Hnone & _ & -> & _)
              | (lists & Hall &
                 [(e & -> & _) | (resources & r & -> & _)])])])]);
    try discriminate Hconv; injection Hconv as <-; now eexists _, _.
Qed.

End ReconcileSteps.
(** ** The further properties on the sample worlds *)

Lemma applier_follows_listing_and_clone_witness :
  exists fn0 : ListFn,
    list_category fn0 = "VM"
    /\ listed_and_cloned
       = [Called (recommender_list fn0 ["project-a"; "project-b"])
            (Ok (DRecommendations [r1; r2]));
          Called (cloneRepository (remote account "infra") "infra")
            (Ok DNone)].
Proof.
  apply (applier_follows_listing_and_clone account sample_upper unit
           (scripted happy) wall_clock in_order vm_request tt
           applyVMResizeRecommendations "infra"
           [r1; r2] (Ok (DRecommendations [r1; r2])) listed_and_cloned
           [Clock "11/3/2026, 9:30:00 AM";
            Called (commitChanges sample_commit_message "infra")
              (Ok (DCommit sample_commit));
            Called (createPullRequest "git@github.com:acme/infra.git"
                      "recommendations-1" sample_commit_message)
              (Ok DNone);
            Called (createCommit "infra" "4f2a9c1" [r1; r2]) (Ok DNone);
            Called (setRecommendationStatus [r1; r2] "markClaimed")
              (Ok DNone)]).
  reflexivity.
Defined.

Lemma staged_subset_is_committed_then_claimed_witness :
  received (sample_apply happy vm_request) = Some (201, "Created").
Proof.
  apply (staged_subset_is_committed_then_claimed account sample_upper unit
           (scripted happy) wall_clock in_order vm_request tt
           applyVMResizeRecommendations "infra" [r1; r2] [r1; r2]
           listed_and_cloned
           [Clock "11/3/2026, 9:30:00 AM";
            Called (commitChanges sample_commit_message "infra")
              (Ok (DCommit sample_commit));
            Called (createPullRequest "git@github.com:acme/infra.git"
                      "recommendations-1" sample_commit_message)
              (Ok DNone);
            Called (createCommit "infra" "4f2a9c1" [r1; r2]) (Ok DNone);
            Called (setRecommendationStatus [r1; r2] "markClaimed")
              (Ok DNone)]).
  - reflexivity.
  - discriminate.
  - reflexivity.
Defined.

Lemma supported_category_is_always_answered_witness :
  outcome (sample_apply applier_fails vm_request) = Ok tt.
Proof.
  apply (supported_category_is_always_answered account sample_upper unit
           (scripted applier_fails) wall_clock in_order vm_request tt).
  left. reflexivity.
Defined.

Lemma unsupported_category_rejects_promise_witness :
  outcome (sample_apply happy db_request) = Err Express.headers_sent.
Proof.
  apply (unsupported_category_rejects_promise account sample_upper unit
           (scripted happy) wall_clock in_order db_request tt);
    cbn; discriminate.
Defined.

Lemma rejected_call_ends_apply_run_witness :
  received (sample_apply applier_fails vm_request)
  = Some (500, "Internal Server Error").
Proof.
  apply (rejected_call_ends_apply_run account sample_upper unit
           (scripted applier_fails) wall_clock in_order vm_request tt
           (terraform_apply applyVMResizeRecommendations "infra" [r1; r2])
           timed_out listed_and_cloned []).
  reflexivity.
Defined.

Lemma server_error_means_rejected_call_witness :
  exists (pre : list Entry) (c : Call) (e : Error),
    trace (sample_apply applier_fails vm_request)
    = (pre ++ [Called c (Err e)])%list.
Proof.
  apply (server_error_means_rejected_call account sample_upper unit
           (scripted applier_fails) wall_clock in_order vm_request tt).
  - left. reflexivity.
  - reflexivity.
Defined.

Lemma decoded_event_is_always_answered_witness :
  outcome (sample_ci lookup_fails success_event) = Ok tt.
Proof.
  apply (decoded_event_is_always_answered account sample_parse unit
           (scripted lookup_fails) wall_clock in_order success_event tt
           success_payload).
  - reflexivity.
  - discriminate.
Defined.

Lemma every_ancestor_is_looked_up_witness :
  exists (answers : list (result (list string))) (tail : list Entry),
    length answers = 3
    /\ lookup_entries (Some (JStr "infra")) ["c1"; "c2"; "c3"]
         [Ok ["r1"; "r2"]; Err timed_out; Ok []]
       = (lookup_entries (Some (JStr "infra")) ["c1"; "c2"; "c3"] answers
          ++ tail)%list
    /\ match fulfilled answers with
       | None => tail = []
       | Some lists =>
           exists r tail',
             tail = Called (getRecommendations (concat lists)) r :: tail'
       end.
Proof.
  apply (every_ancestor_is_looked_up account sample_parse unit
           (scripted lookup_fails) wall_clock in_order success_event tt
           success_payload "github.com:acme/infra" ["c1"; "c2"; "c3"]
           (lookup_entries (Some (JStr "infra")) ["c1"; "c2"; "c3"]
              [Ok ["r1"; "r2"]; Err timed_out; Ok []]));
    reflexivity.
Defined.

Lemma status_change_uses_refreshed_tokens_witness :
  exists before recommendationIDs resources,
    looked_up_and_refreshed
    = (before ++ [Called (getRecommendations recommendationIDs)
                    (Ok (DResources resources))])%list
    /\ map entry_of (map fresh_token ["r1"; "r2"; "r2"; "r3"])
       = map entry_of resources.
Proof.
  apply (status_change_uses_refreshed_tokens account sample_parse unit
           (scripted happy) wall_clock in_order success_event tt
           (map entry_of (map fresh_token ["r1"; "r2"; "r2"; "r3"]))
           "markSucceeded" (Ok DNone) looked_up_and_refreshed []).
  reflexivity.
Defined.

Lemma rejection_stops_reconciliation_witness :
  forallb is_lookup
    (calls [Called (getCommit (Some (JStr "infra")) "c3") (Ok (DStrings []))])
  = true.
Proof.
  apply (rejection_stops_reconciliation account sample_parse unit
           (scripted lookup_fails) wall_clock in_order success_event tt
           (getCommit (Some (JStr "infra")) "c2") timed_out
           [Called (getParentCommits "github.com:acme/infra"
                      (Some (JStr "c")))
              (Ok (DStrings ["c1"; "c2"; "c3"]));
            Called (getCommit (Some (JStr "infra")) "c1")
              (Ok (DStrings ["r1"; "r2"]))]
           [Called (getCommit (Some (JStr "infra")) "c3")
              (Ok (DStrings []))]).
  reflexivity.
Defined.

Lemma missing_correlation_keys_are_not_checked_witness :
  exists (r : result Data) (rest : list Entry),
    trace (edge_ci happy bare_event)
    = Called (getParentCommits "github.com:acme/undefined" None) r :: rest.
Proof.
  apply (missing_correlation_keys_are_not_checked account edge_parse unit
           (scripted happy) wall_clock in_order bare_event tt bare_payload);
    reflexivity.
Defined.

Lemma null_payload_is_an_error_witness :
  received (edge_ci happy null_event)
  = Some (500,
          "TypeError: Cannot read properties of null (reading 'status')").
Proof.
  apply (null_payload_is_an_error account edge_parse unit (scripted happy)
           wall_clock in_order null_event tt).
  reflexivity.
Defined.

Lemma undecodable_event_is_unanswered_witness :
  received (sample_ci happy garbled_event) = None
  /\ outcome (sample_ci happy garbled_event) = Err unexpected_token.
Proof.
  apply (undecodable_event_is_unanswered account sample_parse unit
           (scripted happy) wall_clock in_order garbled_event tt
           unexpected_token).
  reflexivity.
Defined.

(** With two rejected lookups the client is told the reason of the one
    rejected first in time, which need not be the first in the list. *)
Example earliest_rejection_is_reported :
  received (sample_ci both_lookups_fail success_event)
  = Some (500, "Error: slow failure")
  /\ received
       (serve unit (scripted both_lookups_fail) wall_clock second_first
          (ci account sample_parse success_event) tt)
     = Some (500, "Error: fast failure").
Proof. split; reflexivity. Qed.

(** A [status] or a [REPO_NAME] that is an object with a [toString] key
    cannot be converted: the handler makes no call and answers 500 with
    the TypeError's text. *)
Example unconvertible_values_are_errors :
  trace (edge_ci happy odd_status_event) = []
  /\ received (edge_ci happy odd_status_event)
     = Some (500, "TypeError: Cannot convert object to primitive value")
  /\ trace (edge_ci happy odd_repo_event) = []
  /\ received (edge_ci happy odd_repo_event)
     = Some (500, "TypeError: Cannot convert object to primitive value").
Proof. repeat split; reflexivity. Qed.
